(** * Alpaca MCP adapter: batching, authenticated request, paginated fetchers

    A shallow embedding of the module of [src/index.js] that exports
    [request], [getBatches], [getAssets], [getStockBars], [getMarketDays] and
    [getNews], and the properties its specification states about it.

    Conventions of the embedding.
    - A JavaScript string is a [string] of bytes, its generalized UTF-8
      text: a character is held as its UTF-8 bytes (a surrogate pair as the
      four bytes of its character), a surrogate that stands alone as the
      three bytes [ED A0..BF 80..BF].
    - A value decoded from JSON is a [json]; [undefined] is [None] of an
      [option json].
    - A JavaScript number that counts or indexes is a [Z]; the batch size
      is an integer, as the contract of [getBatches] has it.
    - The network is a function from the calls made so far and the current
      call to what [fetch] gives back; the fetchers run in a monad that logs
      every call, can throw, and can run out of fuel in a [do ... while]. *)

From Stdlib Require Import String Ascii List ZArith Lia Bool DecimalString.
Import ListNotations.
Open Scope string_scope.
Open Scope Z_scope.

(* ================================================================== *)
(** * Strings *)

Module Str.

(** The double quote character, and a string between double quotes. *)
Definition dq : string := String "034"%char EmptyString.
Definition q (s : string) : string := dq ++ s ++ dq.

(** [[a, b, c].join(sep)] on an array of strings. *)
Definition join (sep : string) (parts : list string) : string :=
  String.concat sep parts.

Definition is_empty (s : string) : bool :=
  match s with EmptyString => true | String _ _ => false end.

(** Decimal rendering of an integer, as [String(n)] gives it. *)
Definition of_Z (z : Z) : string := NilZero.string_of_int (Z.to_int z).

Definition hex_digit (upper : bool) (n : N) : ascii :=
  if (n <? 10)%N then ascii_of_N (48 + n)
  else ascii_of_N ((if upper then 55 else 87) + n).

(** The two hexadecimal digits of a byte. *)
Definition hex2 (upper : bool) (c : ascii) : string :=
  let n := N_of_ascii c in
  String (hex_digit upper (n / 16)) (String (hex_digit upper (n mod 16)) EmptyString).

(** The four lower-case hexadecimal digits of a 16-bit code unit. *)
Definition hex4 (n : N) : string :=
  String (hex_digit false ((n / 4096) mod 16))
    (String (hex_digit false ((n / 256) mod 16))
       (String (hex_digit false ((n / 16) mod 16))
          (String (hex_digit false (n mod 16)) EmptyString))).

(** Do the bytes [c1 c2] start the three-byte form of a surrogate that
    stands alone? *)
Definition is_surrogate (c1 c2 : ascii) : bool :=
  ((N_of_ascii c1 =? 237) && (160 <=? N_of_ascii c2) && (N_of_ascii c2 <=? 191))%N.

(** The code unit (D800..DFFF) of the surrogate whose three-byte form ends
    with [c2 c3]. *)
Definition surrogate_value (c2 c3 : ascii) : N :=
  (53248 + (N_of_ascii c2 mod 64) * 64 + N_of_ascii c3 mod 64)%N.

(** The three-byte form of the surrogate of code unit [u]. *)
Definition surrogate (u : N) : string :=
  String (ascii_of_N 237)
    (String (ascii_of_N (128 + (u / 64) mod 64))
       (String (ascii_of_N (128 + u mod 64)) EmptyString)).

Definition is_digit (c : ascii) : bool :=
  let n := N_of_ascii c in ((48 <=? n) && (n <=? 57))%N.

Definition is_alnum (c : ascii) : bool :=
  let n := N_of_ascii c in
  (is_digit c || ((65 <=? n) && (n <=? 90)) || ((97 <=? n) && (n <=? 122)))%N.

(** UTF-8 continuation byte (10xxxxxx). *)
Definition is_continuation (c : ascii) : bool :=
  let n := N_of_ascii c in ((128 <=? n) && (n <? 192))%N.

(** The characters of a string, one string per character: a lead byte with
    the continuation bytes that follow it. *)
Fixpoint chars_from (cur : string) (s : string) : list string :=
  match s with
  | EmptyString => [cur]
  | String c rest =>
      if is_continuation c then chars_from (cur ++ String c EmptyString) rest
      else cur :: chars_from (String c EmptyString) rest
  end.

Definition chars (s : string) : list string :=
  match s with
  | EmptyString => []
  | String c rest => chars_from (String c EmptyString) rest
  end.

(** The UTF-16 code units of one character: a character of four bytes is a
    surrogate pair, any other is one unit. *)
Definition units_of_char (ch : string) : list string :=
  match ch with
  | String b1 (String b2 (String b3 (String b4 EmptyString))) =>
      if (240 <=? N_of_ascii b1)%N
      then
        let cp := ((N_of_ascii b1 mod 8) * 262144 + (N_of_ascii b2 mod 64) * 4096
                   + (N_of_ascii b3 mod 64) * 64 + N_of_ascii b4 mod 64)%N in
        let v := (cp - 65536)%N in
        [surrogate (55296 + v / 1024); surrogate (56320 + v mod 1024)]
      else [ch]
  | _ => [ch]
  end.

(** The UTF-16 code units of a string, one string per unit: what indexing a
    JavaScript string gives. *)
Definition code_units (s : string) : list string :=
  flat_map units_of_char (chars s).

End Str.

(* ================================================================== *)
(** * JSON values and the built-ins the module calls on them *)

#[local] Set Warnings "-register-all".

(** A value as [res.json()] decodes it. A number carries the text that
    [Number.prototype.toString] gives for it (so zero is ["0"], and a number
    too large for a double is ["Infinity"] or ["-Infinity"]); an object
    carries its properties in enumeration order. *)
Inductive json : Type :=
| JNull
| JBool (b : bool)
| JNum (repr : string)
| JStr (s : string)
| JArr (items : list json)
| JObj (props : list (string * json)).

(** What the code can throw and catch; [err.message] is [message]. *)
Inductive exn : Type :=
| Error (msg : string)
| TypeError (msg : string)
| SyntaxError (msg : string)
| FetchError (msg : string).

Definition message (e : exn) : string :=
  match e with
  | Error m | TypeError m | SyntaxError m | FetchError m => m
  end.

Inductive result (A : Type) : Type :=
| Ok (a : A)
| Throw (e : exn).
Arguments Ok {A} a.
Arguments Throw {A} e.

(** The wording of the engine's own [TypeError]s, which ECMAScript leaves to
    the implementation. *)
Record Engine : Type := {
  null_property_message : string -> string;  (* reading property [k] of null *)
  not_a_function_message : string -> string; (* calling method [k] that is undefined *)
  not_iterable_message : option json -> string
                                             (* spreading a value that is not iterable *)
}.

Module JS.

(** Truthiness of a decoded value ([if (v)], [while (v)], [filter]). *)
Definition truthy (v : json) : bool :=
  match v with
  | JNull => false
  | JBool b => b
  | JNum r => negb (r =? "0")%string
  | JStr s => negb (Str.is_empty s)
  | JArr _ | JObj _ => true
  end.

Definition truthy_opt (v : option json) : bool :=
  match v with Some j => truthy j | None => false end.

(** The value of a property in a property list: the last entry with that
    key (a decoded object has one entry per key). *)
Fixpoint lookup (k : string) (props : list (string * json)) : option json :=
  match props with
  | [] => None
  | (k', v) :: rest =>
      match lookup k rest with
      | Some v' => Some v'
      | None => if (k' =? k)%string then Some v else None
      end
  end.

(** [v.k] for the property names this module reads ([bars],
    [next_page_token], [news], [tradable]): none of them is a built-in
    property of a primitive or of an array, so only an object can have it,
    and only [null] makes the access throw. *)
Definition get (engine : Engine) (v : json) (k : string) : result (option json) :=
  match v with
  | JNull => Throw (TypeError (null_property_message engine k))
  | JObj props => Ok (lookup k props)
  | _ => Ok None
  end.

(** [arr.filter(keep)] where the callback may throw: the elements are
    visited in order and the first throw ends the call. *)
Fixpoint filter (keep : json -> result bool) (arr : list json) : result (list json) :=
  match arr with
  | [] => Ok []
  | a :: rest =>
      match keep a with
      | Throw e => Throw e
      | Ok b =>
          match filter keep rest with
          | Throw e => Throw e
          | Ok kept => Ok (if b then a :: kept else kept)
          end
      end
  end.

(** The items that the spread [...v] yields: the elements of an array, the
    characters of a string; any other value is not iterable. *)
Definition spread (engine : Engine) (v : option json) : result (list json) :=
  match v with
  | Some (JArr items) => Ok items
  | Some (JStr s) => Ok (map JStr (Str.chars s))
  | _ => Throw (TypeError (not_iterable_message engine v))
  end.

(** [String(v)], as [URLSearchParams] applies it to a parameter value. *)
Fixpoint to_string (v : json) : string :=
  match v with
  | JNull => "null"
  | JBool true => "true"
  | JBool false => "false"
  | JNum r => r
  | JStr s => s
  | JArr items =>
      Str.join ","
        (map (fun x => match x with JNull => EmptyString | _ => to_string x end) items)
  | JObj _ => "[object Object]"
  end.

(** [QuoteJSONString]: the escapes of [JSON.stringify]. *)
Definition escape_char (c : ascii) : string :=
  let n := N_of_ascii c in
  if (n =? 34)%N then "\" ++ Str.dq
  else if (n =? 92)%N then "\\"
  else if (n =? 8)%N then "\b"
  else if (n =? 9)%N then "\t"
  else if (n =? 10)%N then "\n"
  else if (n =? 12)%N then "\f"
  else if (n =? 13)%N then "\r"
  else if (n <? 32)%N then "\u00" ++ Str.hex2 false c
  else String c EmptyString.

(** A surrogate that stands alone is written as its [\u] escape. *)
Fixpoint escape (s : string) : string :=
  match s with
  | EmptyString => EmptyString
  | String c rest =>
      match rest with
      | String c2 (String c3 rest') =>
          if Str.is_surrogate c c2
          then "\u" ++ Str.hex4 (Str.surrogate_value c2 c3) ++ escape rest'
          else escape_char c ++ escape rest
      | _ => escape_char c ++ escape rest
      end
  end.

Definition quote (s : string) : string := Str.q (escape s).

(** [JSON.stringify(v)] without indentation; a number that is not finite
    is written [null]. *)
Fixpoint JSON_stringify (v : json) : string :=
  match v with
  | JNull => "null"
  | JBool true => "true"
  | JBool false => "false"
  | JNum r => if ((r =? "Infinity") || (r =? "-Infinity"))%string then "null" else r
  | JStr s => quote s
  | JArr items => "[" ++ Str.join "," (map JSON_stringify items) ++ "]"
  | JObj props =>
      "{" ++ Str.join ","
               (map (fun p => quote (fst p) ++ ":" ++ JSON_stringify (snd p)) props)
          ++ "}"
  end.

(** The application/x-www-form-urlencoded byte serializer. *)
Definition form_encode_char (c : ascii) : string :=
  let n := N_of_ascii c in
  if Str.is_alnum c || (n =? 42)%N || (n =? 45)%N || (n =? 46)%N || (n =? 95)%N
  then String c EmptyString
  else if (n =? 32)%N then "+"
  else "%" ++ Str.hex2 true c.

(** A surrogate that stands alone is first replaced by U+FFFD, as the
    conversion of a parameter to a scalar value string does. *)
Fixpoint form_encode (s : string) : string :=
  match s with
  | EmptyString => EmptyString
  | String c rest =>
      match rest with
      | String c2 (String c3 rest') =>
          if Str.is_surrogate c c2
          then "%EF%BF%BD" ++ form_encode rest'
          else form_encode_char c ++ form_encode rest
      | _ => form_encode_char c ++ form_encode rest
      end
  end.

(** [new URLSearchParams(params).toString()] on a record of parameters,
    given in the order the object literal created them. *)
Definition URLSearchParams_toString (params : list (string * json)) : string :=
  Str.join "&"
    (map (fun p => form_encode (fst p) ++ "=" ++ form_encode (to_string (snd p)))
         params).

(** [arr.slice(start, end)] with integer arguments: a negative index counts
    from the end, both are clamped to the array. *)
Definition slice {A : Type} (arr : list A) (start end_ : Z) : list A :=
  let len := Z.of_nat (length arr) in
  let k := if start <? 0 then Z.max (len + start) 0 else Z.min start len in
  let final := if end_ <? 0 then Z.max (len + end_) 0 else Z.min end_ len in
  firstn (Z.to_nat (final - k)) (skipn (Z.to_nat k) arr).

End JS.

(* ================================================================== *)
(** * The accumulator object of [getStockBars] *)

Module Obj.

(** A property key that is an array index: the canonical decimal text of an
    integer below 2^32 - 1. Such keys are enumerated first, in ascending
    order; the other keys follow in creation order. *)
Fixpoint digits_value (acc : N) (s : string) : option N :=
  match s with
  | EmptyString => Some acc
  | String c rest =>
      if Str.is_digit c
      then digits_value (10 * acc + (N_of_ascii c - 48))%N rest
      else None
  end.

Definition array_index (k : string) : option N :=
  match k with
  | EmptyString => None
  | String c rest =>
      if (N_of_ascii c =? 48)%N && negb (Str.is_empty rest) then None
      else match digits_value 0%N k with
           | Some n => if (n <? 4294967295)%N then Some n else None
           | None => None
           end
  end.

Definition has_key (k : string) (props : list (string * json)) : bool :=
  existsb (fun p => (fst p =? k)%string) props.

(** Overwrite the value of an existing key, in place. *)
Fixpoint update (k : string) (v : json) (props : list (string * json))
  : list (string * json) :=
  match props with
  | [] => []
  | (k', v') :: rest =>
      if (k' =? k)%string then (k', v) :: update k v rest
      else (k', v') :: update k v rest
  end.

(** Create the index key [k] (of value [n]) at its place among the index
    keys, before the first key that is not an index or is a larger one. *)
Fixpoint insert_index (n : N) (k : string) (v : json) (props : list (string * json))
  : list (string * json) :=
  match props with
  | [] => [(k, v)]
  | (k', v') :: rest =>
      match array_index k' with
      | Some n' =>
          if (n' <? n)%N then (k', v') :: insert_index n k v rest
          else (k, v) :: props
      | None => (k, v) :: props
      end
  end.

(** The own properties after [o[k] = v] created or overwrote a data
    property. *)
Definition define (k : string) (v : json) (props : list (string * json))
  : list (string * json) :=
  if has_key k props then update k v props
  else match array_index k with
       | Some n => insert_index n k v props
       | None => (props ++ [(k, v)])%list
       end.

(** The prototype of the accumulator: [Object.prototype] at creation; the
    inherited [__proto__] setter can replace it by [null] or by a decoded
    object or array. *)
Inductive proto : Type :=
| ProtoDefault
| ProtoNull
| ProtoValue (v : json).

Record t : Type := mk { own : list (string * json); prototype : proto }.

(** The object literal [{}]. *)
Definition empty : t := {| own := []; prototype := ProtoDefault |}.

(** What the [__proto__] setter of [Object.prototype] does with [v]. *)
Definition set_prototype (v : json) (o : t) : t :=
  match v with
  | JNull => {| own := own o; prototype := ProtoNull |}
  | JArr _ | JObj _ => {| own := own o; prototype := ProtoValue v |}
  | _ => o
  end.

(** Does an assignment to [__proto__] reach the setter of
    [Object.prototype]? Not when the object has that key as its own
    property, when its prototype is [null], or when its prototype is a
    decoded object that has the key as its own property. *)
Definition reaches_setter (o : t) : bool :=
  negb (has_key "__proto__" (own o)) &&
  match prototype o with
  | ProtoDefault => true
  | ProtoNull => false
  | ProtoValue (JObj props) => negb (has_key "__proto__" props)
  | ProtoValue _ => true
  end.

(** [o[k] = v]. *)
Definition set (k : string) (v : json) (o : t) : t :=
  if (k =? "__proto__")%string && reaches_setter o then set_prototype v o
  else {| own := define k v (own o); prototype := prototype o |}.

(** The own enumerable properties of a source of [Object.assign], in
    enumeration order: the properties of an object, the elements of an
    array, the UTF-16 code units of a string; nothing for the other
    values. *)
Definition indexed (vs : list json) : list (string * json) :=
  combine (map (fun i => Str.of_Z (Z.of_nat i)) (seq 0 (length vs))) vs.

Definition enumerable (src : option json) : list (string * json) :=
  match src with
  | Some (JObj props) => props
  | Some (JArr items) => indexed items
  | Some (JStr s) => indexed (map JStr (Str.code_units s))
  | _ => []
  end.

(** [Object.assign(o, src)]. *)
Definition assign (o : t) (src : option json) : t :=
  fold_left (fun acc p => set (fst p) (snd p) acc) (enumerable src) o.

End Obj.

(* ================================================================== *)
(** * The batch helper *)

Section Batches.

Context {A : Type}.

(** The variables of the [for] loop of [getBatches]. *)
Record loop_state : Type := { idx : Z; batches : list (list A) }.

(** One turn of [for (let i = 0; i < arr.length; i += size)
    batches.push(arr.slice(i, i + size))]: [None] when the test fails. *)
Definition loop_step (arr : list A) (size : Z) (s : loop_state) : option loop_state :=
  if idx s <? Z.of_nat (length arr)
  then Some {| idx := idx s + size;
               batches := (batches s ++ [JS.slice arr (idx s) (idx s + size)])%list |}
  else None.

(** The state after [n] turns, if the loop makes that many. *)
Fixpoint loop_iter (arr : list A) (size : Z) (n : nat) (s : loop_state)
  : option loop_state :=
  match n with
  | O => Some s
  | S n' =>
      match loop_step arr size s with
      | Some s' => loop_iter arr size n' s'
      | None => None
      end
  end.

(** The loop run with [fuel] turns at most: [None] when they do not
    suffice. *)
Fixpoint loop_run (arr : list A) (size : Z) (fuel : nat) (s : loop_state)
  : option (list (list A)) :=
  match loop_step arr size s with
  | None => Some (batches s)
  | Some s' =>
      match fuel with
      | O => None
      | S fuel' => loop_run arr size fuel' s'
      end
  end.

Definition getBatches (fuel : nat) (arr : list A) (size : Z) : option (list (list A)) :=
  loop_run arr size fuel {| idx := 0; batches := [] |}.

End Batches.
Arguments loop_state A : clear implicits.

(* ================================================================== *)
(** * The world of a tool invocation *)

(** [process.env], read at call time. *)
Record Env : Type := {
  ALPACA_API_KEY : option string;
  ALPACA_SECRET_KEY : option string;
  ALPACA_ENDPOINT : option string;
  ALPACA_BROKER_ENDPOINT : option string
}.

(** [fetch(url, { method, headers })]. *)
Record FetchCall : Type := {
  call_url : string;
  call_method : string;
  call_headers : list (string * option string)
}.

(** What [res.json()] gives: the decoded body, or the parse error it
    throws. *)
Inductive Body : Type :=
| BodyJson (v : json)
| BodyInvalid (e : exn).

Record Response : Type := {
  ok : bool;
  status : Z;
  statusText : string;
  body : Body
}.

(** The calls made so far, oldest first. *)
Definition History : Type := list FetchCall.

(** The network: what [fetch] resolves to, or rejects with, for a call made
    after the given history. *)
Definition Network : Type := History -> FetchCall -> result Response.

(** The result envelope of a tool. *)
Record ContentItem : Type := { type : string; text : string }.
Record Envelope : Type := { content : list ContentItem; isError : option bool }.

(* ================================================================== *)
(** * The monad of the fetchers *)

Inductive outcome (A : Type) : Type :=
| Returns (a : A)
| Throws (e : exn)
| OutOfFuel.
Arguments Returns {A} a.
Arguments Throws {A} e.
Arguments OutOfFuel {A}.

Definition M (A : Type) : Type := History -> outcome A * History.

Definition ret {A} (a : A) : M A := fun h => (Returns a, h).

Definition throw {A} (e : exn) : M A := fun h => (Throws e, h).

Definition out_of_fuel {A} : M A := fun h => (OutOfFuel, h).

Definition bind {A B} (m : M A) (k : A -> M B) : M B :=
  fun h =>
    match m h with
    | (Returns a, h') => k a h'
    | (Throws e, h') => (Throws e, h')
    | (OutOfFuel, h') => (OutOfFuel, h')
    end.

(** [try { m } catch (err) { handler }]. *)
Definition try_catch {A} (m : M A) (handler : exn -> M A) : M A :=
  fun h =>
    match m h with
    | (Throws e, h') => handler e h'
    | r => r
    end.

Definition lift {A} (r : result A) : M A :=
  match r with
  | Ok a => ret a
  | Throw e => throw e
  end.

Declare Scope monad_scope.
Delimit Scope monad_scope with monad.
Notation "x <- m ;; k" := (bind m (fun x => k))
  (at level 61, m at next level, right associativity) : monad_scope.
Open Scope monad_scope.

(* ================================================================== *)
(** * The request helper and the four fetchers *)

Record RequestOptions : Type := {
  base : option string;
  path : string;
  method : option string;
  params : option (list (string * json))
}.

Inductive AssetClass : Type := us_equity | crypto.

Definition AssetClass_text (c : AssetClass) : string :=
  match c with us_equity => "us_equity" | crypto => "crypto" end.

Record StockBarsArgs : Type := {
  bars_symbols : list string;
  bars_start : string;
  bars_end : string;
  bars_timeframe : string
}.

Record NewsArgs : Type := {
  news_start : string;
  news_end : string;
  news_symbols : list string
}.

Definition credentials_message : string :=
  "Alpaca credentials not configured. Set ALPACA_API_KEY and ALPACA_SECRET_KEY.".

(** [!process.env.X]: the variable is unset or empty. *)
Definition unset (v : option string) : bool :=
  match v with
  | None => true
  | Some s => Str.is_empty s
  end.

(** A possibly undefined string inside a template literal. *)
Definition interpolate (v : option string) : string :=
  match v with
  | Some s => s
  | None => "undefined"
  end.

Definition success (payload : string) : Envelope :=
  {| content := [{| type := "text"; text := payload |}]; isError := None |}.

Definition failure (msg : string) : Envelope :=
  {| content := [{| type := "text"; text := msg |}]; isError := Some true |}.

Section Fetchers.

Variable engine : Engine.
Variable env : Env.
Variable net : Network.

Definition fetch (call : FetchCall) : M Response :=
  fun h =>
    match net h call with
    | Ok res => (Returns res, (h ++ [call])%list)
    | Throw e => (Throws e, (h ++ [call])%list)
    end.

Definition res_json (res : Response) : M json :=
  match body res with
  | BodyJson v => ret v
  | BodyInvalid e => throw e
  end.

(** The request helper. The earlier build of the module also waits for a
    rate limiter between the credentials check and the call; the wait delays
    the call and changes nothing else. *)
Definition request (opts : RequestOptions) : M json :=
  let base := match base opts with Some b => Some b | None => ALPACA_ENDPOINT env end in
  let method := match method opts with Some m => m | None => "GET" end in
  let params := match params opts with Some p => p | None => [] end in
  if unset (ALPACA_API_KEY env) || unset (ALPACA_SECRET_KEY env)
  then throw (Error credentials_message)
  else
    let qs := JS.URLSearchParams_toString params in
    let url := interpolate base ++ path opts
               ++ (if Str.is_empty qs then EmptyString else "?" ++ qs) in
    res <- fetch {| call_url := url;
                    call_method := method;
                    call_headers :=
                      [("APCA-API-KEY-ID", ALPACA_API_KEY env);
                       ("APCA-API-SECRET-KEY", ALPACA_SECRET_KEY env)] |} ;;
    if negb (ok res)
    then
      err <- res_json res ;;
      throw (Error (Str.of_Z (status res) ++ " " ++ statusText res ++ " - "
                      ++ JS.JSON_stringify err))
    else res_json res.

(** [data.filter((a) => a.tradable)] on whatever the request decoded. *)
Definition filter_tradable (data : json) : result (list json) :=
  match data with
  | JArr items =>
      JS.filter (fun a => match JS.get engine a "tradable" with
                          | Ok t => Ok (JS.truthy_opt t)
                          | Throw e => Throw e
                          end) items
  | JNull => Throw (TypeError (null_property_message engine "filter"))
  | _ => Throw (TypeError (not_a_function_message engine "filter"))
  end.

Definition getAssets (assetClass : option AssetClass) : M Envelope :=
  let assetClass := match assetClass with Some c => c | None => us_equity end in
  try_catch
    (data <- request {| base := ALPACA_BROKER_ENDPOINT env;
                        path := "/v1/assets";
                        method := None;
                        params := Some [("status", JStr "active");
                                        ("asset_class", JStr (AssetClass_text assetClass))] |} ;;
     assets <- lift (filter_tradable data) ;;
     ret (success (JS.JSON_stringify (JArr assets))))
    (fun err => ret (failure ("Error fetching assets: " ++ message err))).

(** The parameters of one bars request. *)
Definition bars_params (a : StockBarsArgs) (batch : list string) (pageToken : option json)
  : list (string * json) :=
  ([("timeframe", JStr (bars_timeframe a));
    ("limit", JNum "10000");
    ("start", JStr (bars_start a));
    ("end", JStr (bars_end a));
    ("symbols", JStr (Str.join "," batch))]
   ++ match pageToken with
      | Some tok => if JS.truthy tok then [("page_token", tok)] else []
      | None => []
      end)%list.

(** The [do ... while (pageToken)] of one batch, entered with the current
    [pageToken] and accumulator; [fuel] bounds the number of turns. *)
Fixpoint bars_pages (fuel : nat) (a : StockBarsArgs) (batch : list string)
  (pageToken : option json) (bars : Obj.t) : M Obj.t :=
  match fuel with
  | O => out_of_fuel
  | S fuel' =>
      resp <- request {| base := ALPACA_ENDPOINT env;
                         path := "/v2/stocks/bars";
                         method := None;
                         params := Some (bars_params a batch pageToken) |} ;;
      page <- lift (JS.get engine resp "bars") ;;
      let bars := Obj.assign bars page in
      pageToken <- lift (JS.get engine resp "next_page_token") ;;
      if JS.truthy_opt pageToken
      then bars_pages fuel' a batch pageToken bars
      else ret bars
  end.

(** The [for (const batch of ...)] over the batches. *)
Fixpoint bars_batches (fuel : nat) (a : StockBarsArgs) (todo : list (list string))
  (bars : Obj.t) : M Obj.t :=
  match todo with
  | [] => ret bars
  | batch :: rest =>
      bars <- bars_pages fuel a batch None bars ;;
      bars_batches fuel a rest bars
  end.

Definition getStockBars (fuel : nat) (a : StockBarsArgs) : M Envelope :=
  try_catch
    (match getBatches (S (length (bars_symbols a))) (bars_symbols a) 2000 with
     | None => out_of_fuel
     | Some todo =>
         bars <- bars_batches fuel a todo Obj.empty ;;
         ret (success (JS.JSON_stringify (JObj [("bars", JObj (Obj.own bars))])))
     end)
    (fun err => ret (failure ("Error fetching stock bars: " ++ message err))).

Definition getMarketDays (start end_ : string) : M Envelope :=
  try_catch
    (days <- request {| base := ALPACA_ENDPOINT env;
                        path := "/v2/calendar";
                        method := None;
                        params := Some [("start", JStr start); ("end", JStr end_)] |} ;;
     ret (success (JS.JSON_stringify days)))
    (fun err => ret (failure ("Error fetching market days: " ++ message err))).

(** The parameters of one news request. *)
Definition news_params (a : NewsArgs) (pageToken : option json) : list (string * json) :=
  if JS.truthy_opt pageToken
  then match pageToken with
       | Some tok => [("page_token", tok)]
       | None => []
       end
  else [("sort", JStr "desc");
        ("start", JStr (news_start a));
        ("end", JStr (news_end a));
        ("symbols", JStr (Str.join "," (news_symbols a)));
        ("include_content", JBool true)].

(** The [do ... while (pageToken)] of [getNews]. *)
Fixpoint news_pages (fuel : nat) (a : NewsArgs) (pageToken : option json)
  (all : list json) : M (list json) :=
  match fuel with
  | O => out_of_fuel
  | S fuel' =>
      resp <- request {| base := ALPACA_ENDPOINT env;
                         path := "/v1beta1/news";
                         method := None;
                         params := Some (news_params a pageToken) |} ;;
      news <- lift (JS.get engine resp "news") ;;
      items <- lift (JS.spread engine news) ;;
      let all := (all ++ items)%list in
      pageToken <- lift (JS.get engine resp "next_page_token") ;;
      if JS.truthy_opt pageToken
      then news_pages fuel' a pageToken all
      else ret all
  end.

Definition getNews (fuel : nat) (a : NewsArgs) : M Envelope :=
  try_catch
    (all <- news_pages fuel a None [] ;;
     ret (success (JS.JSON_stringify (JArr all))))
    (fun err => ret (failure ("Error fetching news: " ++ message err))).

End Fetchers.


(* ================================================================== *)
(** * Specification-side definitions *)

(** The batching contract: [bs] cuts [l] into consecutive pieces of [n]
    elements, the last one holding what remains (at least one element, at
    most [n]). *)
Inductive batched {A : Type} (n : nat) : list A -> list (list A) -> Prop :=
| batched_nil : batched n [] []
| batched_last (l : list A) :
    l <> [] -> (length l <= n)%nat -> batched n l [l]
| batched_cons (b l : list A) (bs : list (list A)) :
    length b = n -> l <> [] -> batched n l bs -> batched n (b ++ l) (b :: bs).


(** Both credentials are configured. *)
Definition configured (env : Env) : Prop :=
  unset (ALPACA_API_KEY env) = false /\ unset (ALPACA_SECRET_KEY env) = false.

(** The call that the request helper's contract describes: base, path and
    query string put end to end, the method, the two credential headers. *)
Definition issued_call (env : Env) (opts : RequestOptions) : FetchCall :=
  let qs := JS.URLSearchParams_toString (match params opts with Some p => p | None => [] end) in
  {| call_url :=
       interpolate (match base opts with Some b => Some b | None => ALPACA_ENDPOINT env end)
       ++ path opts ++ (if Str.is_empty qs then EmptyString else "?" ++ qs);
     call_method := match method opts with Some m => m | None => "GET" end;
     call_headers := [("APCA-API-KEY-ID", ALPACA_API_KEY env);
                      ("APCA-API-SECRET-KEY", ALPACA_SECRET_KEY env)] |}.

(** What the request helper makes of the answer to its call. *)
Definition settle (answer : result Response) : outcome json :=
  match answer with
  | Throw e => Throws e
  | Ok res =>
      match body res with
      | BodyInvalid e => Throws e
      | BodyJson v =>
          if ok res then Returns v
          else Throws (Error (Str.of_Z (status res) ++ " " ++ statusText res ++ " - "
                                ++ JS.JSON_stringify v))
      end
  end.

(** A property of a page, [None] when the page is not an object or lacks
    it. *)
Definition field (k : string) (page : json) : option json :=
  match page with
  | JObj props => JS.lookup k props
  | _ => None
  end.

(** The network answers the calls [calls], made one after the other from
    history [h], with the successful pages [pages]. *)
Fixpoint serves (net : Network) (h : History) (calls : list FetchCall) (pages : list json)
  : Prop :=
  match calls, pages with
  | [], [] => True
  | c :: calls', p :: pages' =>
      (exists res, net h c = Ok res /\ ok res = true /\ body res = BodyJson p) /\
      serves net (h ++ [c])%list calls' pages'
  | _, _ => False
  end.

(** The pages of one pagination loop: at least one page, none of them
    [null]; every page but the last carries a continuation token, the last
    carries none (or a falsy one). *)
Fixpoint paginated (pages : list json) : Prop :=
  match pages with
  | [] => False
  | p :: rest =>
      p <> JNull /\
      match rest with
      | [] => JS.truthy_opt (field "next_page_token" p) = false
      | _ :: _ => JS.truthy_opt (field "next_page_token" p) = true /\ paginated rest
      end
  end.

(** The parameters of a bars request as the contract gives them: the five
    fixed ones, and [page_token] once a continuation token is known. *)
Definition bars_contract_params (a : StockBarsArgs) (batch : list string) (tok : option json)
  : list (string * json) :=
  ([("timeframe", JStr (bars_timeframe a));
    ("limit", JNum "10000");
    ("start", JStr (bars_start a));
    ("end", JStr (bars_end a));
    ("symbols", JStr (Str.join "," batch))]
   ++ match tok with Some t => [("page_token", t)] | None => [] end)%list.

(** The calls of the pagination loop of one batch that receives [pages],
    [tok] being the token known before the first of them. *)
Fixpoint batch_calls (env : Env) (a : StockBarsArgs) (batch : list string)
  (tok : option json) (pages : list json) : list FetchCall :=
  match pages with
  | [] => []
  | p :: rest =>
      issued_call env {| base := ALPACA_ENDPOINT env;
                         path := "/v2/stocks/bars";
                         method := None;
                         params := Some (bars_contract_params a batch tok) |}
      :: batch_calls env a batch (field "next_page_token" p) rest
  end.

(** The calls of all the batches, in order, [pagess] giving the pages of
    each. *)
Fixpoint bars_calls (env : Env) (a : StockBarsArgs) (todo : list (list string))
  (pagess : list (list json)) : list FetchCall :=
  match todo, pagess with
  | batch :: todo', pages :: pagess' =>
      (batch_calls env a batch None pages ++ bars_calls env a todo' pagess')%list
  | _, _ => []
  end.

(** The accumulator after the [bars] mappings of [pages] were merged into
    it, in order. *)
Definition merge_pages (pages : list json) (acc : Obj.t) : Obj.t :=
  fold_left (fun acc p => Obj.assign acc (field "bars" p)) pages acc.

(** The parameters of a news request as the contract gives them: the five
    filters on the first request, only [page_token] afterwards. *)
Definition news_contract_params (a : NewsArgs) (tok : option json) : list (string * json) :=
  match tok with
  | None => [("sort", JStr "desc");
             ("start", JStr (news_start a));
             ("end", JStr (news_end a));
             ("symbols", JStr (Str.join "," (news_symbols a)));
             ("include_content", JBool true)]
  | Some t => [("page_token", t)]
  end.

Fixpoint news_calls (env : Env) (a : NewsArgs) (tok : option json) (pages : list json)
  : list FetchCall :=
  match pages with
  | [] => []
  | p :: rest =>
      issued_call env {| base := ALPACA_ENDPOINT env;
                         path := "/v1beta1/news";
                         method := None;
                         params := Some (news_contract_params a tok) |}
      :: news_calls env a (field "next_page_token" p) rest
  end.

(** The items of the [news] array of a page. *)
Definition news_items (page : json) : list json :=
  match field "news" page with
  | Some (JArr items) => items
  | _ => []
  end.

Definition has_news_array (page : json) : Prop :=
  exists items, field "news" page = Some (JArr items).

(** The four tools, as invocations with their arguments. *)
Inductive Invocation : Type :=
| InvAssets (assetClass : option AssetClass)
| InvStockBars (a : StockBarsArgs)
| InvMarketDays (start end_ : string)
| InvNews (a : NewsArgs).

Definition run (engine : Engine) (env : Env) (net : Network) (fuel : nat) (inv : Invocation)
  : M Envelope :=
  match inv with
  | InvAssets c => getAssets engine env net c
  | InvStockBars a => getStockBars engine env net fuel a
  | InvMarketDays s e => getMarketDays env net s e
  | InvNews a => getNews engine env net fuel a
  end.

Definition error_prefix (inv : Invocation) : string :=
  match inv with
  | InvAssets _ => "Error fetching assets: "
  | InvStockBars _ => "Error fetching stock bars: "
  | InvMarketDays _ _ => "Error fetching market days: "
  | InvNews _ => "Error fetching news: "
  end.

(** Does the invocation get as far as the request helper? Only the bars
    fetcher with no symbol does not. *)
Definition reaches_request (inv : Invocation) : bool :=
  match inv with
  | InvStockBars a => match bars_symbols a with [] => false | _ :: _ => true end
  | _ => true
  end.

(** The request helper, run where the [k]-th of [calls] was made after
    history [h], raised [e] making that call. *)
Definition raised_at (env : Env) (net : Network) (h : History) (calls : list FetchCall)
  (k : nat) (e : exn) : Prop :=
  exists opts,
    request env net opts (h ++ firstn k calls)%list
    = (Throws e, (h ++ firstn (S k) calls)%list).

(** A rejection, or an error envelope, whose message contains [msg]. *)
Definition rejects_with (msg : string) (r : outcome Envelope) : Prop :=
  (exists e pre post, r = Throws e /\ message e = pre ++ msg ++ post) \/
  (exists pre post, r = Returns (failure (pre ++ msg ++ post))).

(** The filter of the assets contract read to the letter: the records whose
    [tradable] attribute is the boolean [true]. *)
Definition tradable_is_true (a : json) : bool :=
  match field "tradable" a with
  | Some (JBool true) => true
  | _ => false
  end.

(** The filter the code applies: the records whose [tradable] attribute is
    truthy. *)
Definition tradable_is_truthy (a : json) : bool :=
  JS.truthy_opt (field "tradable" a).

(** A computation whose requests are its only source of history, and that
    stops with the error of the first request that raises one. *)
Definition contained {A : Type} (env : Env) (net : Network) (m : M A) : Prop :=
  forall h, exists calls,
    snd (m h) = (h ++ calls)%list /\
    forall k e, (k < length calls)%nat -> raised_at env net h calls k e ->
      S k = length calls /\ fst (m h) = Throws e.

(* ------------------------------------------------------------------ *)
(** ** Sample worlds *)

Module Sample.

(** The wording of V8. *)
Definition engine : Engine :=
  {| null_property_message :=
       fun k => "Cannot read properties of null (reading '" ++ k ++ "')";
     not_a_function_message := fun k => "data." ++ k ++ " is not a function";
     not_iterable_message :=
       fun v =>
         match v with
         | None | Some JNull =>
             "resp.news is not iterable (cannot read property Symbol(Symbol.iterator))"
         | Some _ =>
             "Spread syntax requires ...iterable[Symbol.iterator] to be a function"
         end |}.

(** The environment of the test suite. *)
Definition env : Env :=
  {| ALPACA_API_KEY := Some "key";
     ALPACA_SECRET_KEY := Some "secret";
     ALPACA_ENDPOINT := Some "https://api/";
     ALPACA_BROKER_ENDPOINT := Some "https://broker/" |}.

(** The same with both credentials cleared. *)
Definition env_cleared : Env :=
  {| ALPACA_API_KEY := None;
     ALPACA_SECRET_KEY := None;
     ALPACA_ENDPOINT := Some "https://api/";
     ALPACA_BROKER_ENDPOINT := Some "https://broker/" |}.

Definition ok_response (v : json) : Response :=
  {| ok := true; status := 200; statusText := "OK"; body := BodyJson v |}.

Definition error_response (code : Z) (reason : string) (v : json) : Response :=
  {| ok := false; status := code; statusText := reason; body := BodyJson v |}.

(** A stub that resolves every call to the same response. *)
Definition always (res : Response) : Network := fun _ _ => Ok res.

(** A stub that resolves the calls, in order, to the given responses, and
    rejects the calls after them. *)
Definition in_turn (answers : list Response) : Network :=
  fun h _ =>
    match nth_error answers (length h) with
    | Some res => Ok res
    | None => Throw (FetchError "network unreachable")
    end.

Definition not_found : Response :=
  error_response 404 "Not Found" (JObj [("error", JStr "fail")]).

Definition server_error : Response :=
  error_response 500 "Error" (JObj [("message", JStr "fail")]).

(** An asset whose [tradable] attribute is the number 1. *)
Definition assets_numeric_flag : json :=
  JArr [JObj [("tradable", JNum "1"); ("symbol", JStr "A")]].

(** The assets of the test suite. *)
Definition assets : json :=
  JArr [JObj [("tradable", JBool true); ("symbol", JStr "A")];
        JObj [("tradable", JBool false); ("symbol", JStr "B")]].

Definition bars_args : StockBarsArgs :=
  {| bars_symbols := ["A"; "B"];
     bars_start := "2021-01-01";
     bars_end := "2021-01-02";
     bars_timeframe := "1Day" |}.

Definition no_symbols : StockBarsArgs :=
  {| bars_symbols := [];
     bars_start := "2021-01-01";
     bars_end := "2021-01-02";
     bars_timeframe := "1Day" |}.

(** Two pages of bars: the second overwrites symbol A and ends the loop. *)
Definition bars_page1 : json :=
  JObj [("bars", JObj [("A", JObj [("value", JNum "1")]);
                       ("B", JObj [("value", JNum "2")])]);
        ("next_page_token", JStr "t1")].

Definition bars_page2 : json :=
  JObj [("bars", JObj [("A", JObj [("value", JNum "3")])]);
        ("next_page_token", JNull)].

Definition news_args : NewsArgs :=
  {| news_start := "2021-01-01";
     news_end := "2021-01-02";
     news_symbols := ["A"; "B"] |}.

Definition news_page1 : json :=
  JObj [("news", JArr [JObj [("id", JNum "1")]; JObj [("id", JNum "2")]]);
        ("next_page_token", JStr "t1")].

Definition news_page2 : json :=
  JObj [("news", JArr [JObj [("id", JNum "3")]])].

End Sample.

(* ------------------------------------------------------------------ *)
(** ** Further specification-side definitions *)

(** A call as the fetchers make them: made with both credentials
    configured and carried in the two headers, with the method [GET], to a
    URL that starts with the data base or the broker base. *)
Definition fetcher_call (env : Env) (c : FetchCall) : Prop :=
  configured env /\
  call_method c = "GET" /\
  call_headers c = [("APCA-API-KEY-ID", ALPACA_API_KEY env);
                    ("APCA-API-SECRET-KEY", ALPACA_SECRET_KEY env)] /\
  exists rest,
    call_url c = interpolate (ALPACA_ENDPOINT env) ++ rest \/
    call_url c = interpolate (ALPACA_BROKER_ENDPOINT env) ++ rest.

(** A computation that only makes calls that satisfy [P]. *)
Definition calls_only {A : Type} (P : FetchCall -> Prop) (m : M A) : Prop :=
  forall h, exists calls, snd (m h) = (h ++ calls)%list /\ Forall P calls.

(** A network that answers every call with a successful page that carries a
    continuation token (and a [news] array). *)
Definition always_more (net : Network) : Prop :=
  forall h c, exists res page,
    net h c = Ok res /\ ok res = true /\ body res = BodyJson page /\
    page <> JNull /\ JS.truthy_opt (field "next_page_token" page) = true /\
    has_news_array page.

(** The number of occurrences of a character in a string. *)
Fixpoint count_char (c : ascii) (s : string) : nat :=
  match s with
  | EmptyString => O
  | String c' rest => ((if Ascii.eqb c' c then 1 else 0) + count_char c rest)%nat
  end.

(** A string made of letters, digits and the characters [*], [-], [.] and
    [_] only. *)
Fixpoint plain (s : string) : bool :=
  match s with
  | EmptyString => true
  | String c rest =>
      (Str.is_alnum c || (N_of_ascii c =? 42)%N || (N_of_ascii c =? 45)%N
       || (N_of_ascii c =? 46)%N || (N_of_ascii c =? 95)%N) && plain rest
  end.

(** The keys of a property list. *)
Definition keys (props : list (string * json)) : list string := map fst props.

(** The character U+1F600, which JavaScript holds as the surrogate pair
    D83D DE00. *)
Definition grinning_face : string :=
  String (ascii_of_N 240)
    (String (ascii_of_N 159) (String (ascii_of_N 152) (String (ascii_of_N 128) EmptyString))).
(* ================================================================== *)
(** * Properties of the batch helper *)

Section BatchFacts.

Context {A : Type}.
Implicit Types (arr l b : list A) (bs : list (list A)).

Lemma batched_of_nil n bs : batched n ([] : list A) bs -> bs = [].
Proof.
  intros H. remember ([] : list A) as l eqn:El.
  destruct H as [ | l Hl _ | b l bs' _ Hl _ ]; trivial.
  - congruence.
  - apply app_eq_nil in El as [_ El]. congruence.
Qed.

Lemma batched_nonempty n l bs : batched n l bs -> l <> [] -> bs <> [].
Proof. intros H Hl. destruct H; congruence. Qed.

Lemma batched_concat n l bs : batched n l bs -> concat bs = l.
Proof.
  induction 1 as [ | l _ _ | b l bs _ _ _ IH ]; simpl.
  - reflexivity.
  - apply app_nil_r.
  - now rewrite IH.
Qed.

Lemma batched_bounds n l bs :
  (0 < n)%nat -> batched n l bs ->
  Forall (fun b => b <> [] /\ (length b <= n)%nat) bs.
Proof.
  intros Hn.
  induction 1 as [ | l Hl Hle | b l bs Hb Hl _ IH ].
  - constructor.
  - repeat constructor; assumption.
  - constructor; [ split; [ | lia ] | exact IH ].
    intros ->. simpl in Hb. lia.
Qed.

Lemma batched_front_last n l bs :
  (0 < n)%nat -> batched n l bs ->
  forall front b, bs = (front ++ [b])%list ->
    Forall (fun x => length x = n) front /\
    length b = (if (length l mod n =? 0)%nat then n else length l mod n)%nat.
Proof.
  intros Hn H.
  induction H as [ | l Hl Hle | b0 l bs Hb Hl Hbs IH ]; intros front b Heq.
  - destruct front; discriminate.
  - destruct front as [ | x front ]; simpl in Heq.
    + injection Heq as <-. split; [ constructor | ].
      assert (0 < length l)%nat by (destruct l; [ congruence | simpl; lia ]).
      destruct (Nat.eq_dec (length l) n) as [ -> | Hne ].
      * now rewrite Nat.Div0.mod_same.
      * rewrite Nat.mod_small by lia.
        destruct (Nat.eqb_spec (length l) 0); [ lia | reflexivity ].
    + injection Heq as _ Heq. destruct front; discriminate.
  - destruct front as [ | x front ]; simpl in Heq.
    + injection Heq as _ Heq. subst bs.
      now apply batched_nonempty in Hbs.
    + injection Heq as <- Heq.
      destruct (IH front b Heq) as [Hfront Hlast].
      split; [ constructor; assumption | ].
      rewrite length_app, Hb.
      replace (n + length l)%nat with (length l + 1 * n)%nat by lia.
      now rewrite Nat.Div0.mod_add.
Qed.

(** On a start index inside the contract, [slice] takes the next [size]
    elements, or what is left of the array. *)
Lemma slice_next arr (i size : Z) :
  0 <= i -> 0 < size ->
  JS.slice arr i (i + size) = firstn (Z.to_nat size) (skipn (Z.to_nat i) arr).
Proof.
  intros Hi Hs. unfold JS.slice.
  destruct (Z.ltb_spec i 0); [ lia | ].
  destruct (Z.ltb_spec (i + size) 0); [ lia | ].
  destruct (Z_le_gt_dec i (Z.of_nat (length arr))) as [Hle | Hgt].
  - rewrite (Z.min_l i) by lia.
    destruct (Z_le_gt_dec (i + size) (Z.of_nat (length arr))).
    + rewrite Z.min_l by lia. f_equal. lia.
    + rewrite Z.min_r by lia.
      rewrite !firstn_all2; trivial; rewrite length_skipn; lia.
  - rewrite !skipn_all2 by lia. now rewrite !firstn_nil.
Qed.

(** The loop of [getBatches], started at a non-negative index with enough
    fuel for what is left, appends the batches of the rest of the array. *)
Lemma loop_run_batched arr (size : Z) :
  0 < size ->
  forall fuel i bs,
    0 <= i -> (length (skipn (Z.to_nat i) arr) <= fuel)%nat ->
    exists rest,
      loop_run arr size fuel {| idx := i; batches := bs |} = Some (bs ++ rest)%list /\
      batched (Z.to_nat size) (skipn (Z.to_nat i) arr) rest.
Proof.
  intros Hs fuel.
  induction fuel as [ | fuel IH ]; intros i bs Hi Hfuel.
  - exists []. rewrite length_skipn in Hfuel.
    simpl. unfold loop_step. simpl.
    destruct (Z.ltb_spec i (Z.of_nat (length arr))); [ lia | ].
    rewrite app_nil_r, skipn_all2 by lia. split; [ reflexivity | constructor ].
  - simpl. unfold loop_step. simpl.
    destruct (Z.ltb_spec i (Z.of_nat (length arr))) as [Hlt | Hge].
    + rewrite slice_next by assumption.
      set (l := skipn (Z.to_nat i) arr) in *.
      assert (Hl : l <> []).
      { intros E. apply (f_equal (@length A)) in E. unfold l in E.
        rewrite length_skipn in E. simpl in E. lia. }
      assert (Hrest : skipn (Z.to_nat (i + size)) arr = skipn (Z.to_nat size) l).
      { unfold l. rewrite skipn_skipn. f_equal. lia. }
      destruct (IH (i + size) (bs ++ [firstn (Z.to_nat size) l])%list) as (rest & Hrun & Hb).
      { lia. }
      { rewrite Hrest, length_skipn. unfold l in *. lia. }
      exists (firstn (Z.to_nat size) l :: rest). split.
      * rewrite Hrun, <- app_assoc. reflexivity.
      * rewrite Hrest in Hb.
        destruct (skipn (Z.to_nat size) l) eqn:Hsk.
        -- apply batched_of_nil in Hb. subst rest.
           assert (length l <= Z.to_nat size)%nat.
           { apply (f_equal (@length A)) in Hsk. rewrite length_skipn in Hsk.
             simpl in Hsk. lia. }
           rewrite firstn_all2 by assumption. now constructor.
        -- rewrite <- (firstn_skipn (Z.to_nat size) l) at 1. rewrite Hsk.
           constructor; [ | discriminate | assumption ].
           rewrite length_firstn.
           apply (f_equal (@length A)) in Hsk. rewrite length_skipn in Hsk.
           simpl in Hsk. lia.
    + exists []. rewrite app_nil_r, skipn_all2 by lia.
      split; [ reflexivity | constructor ].
Qed.

(** More fuel does not change what the loop returns. *)
Lemma loop_run_more_fuel arr (size : Z) fuel :
  forall s r, loop_run arr size fuel s = Some r ->
    forall fuel', (fuel <= fuel')%nat -> loop_run arr size fuel' s = Some r.
Proof.
  induction fuel as [ | fuel IH ]; intros s r Hrun fuel' Hle.
  - simpl in Hrun. destruct (loop_step arr size s) eqn:E; [ discriminate | ].
    destruct fuel'; simpl; now rewrite E.
  - simpl in Hrun. destruct (loop_step arr size s) eqn:E.
    + destruct fuel' as [ | fuel' ]; [ lia | ]. simpl. rewrite E.
      apply IH; [ assumption | lia ].
    + destruct fuel'; simpl; now rewrite E.
Qed.

(** With a size that is not positive and an array that is not empty, an
    index that is not positive stays so, and the loop never ends. *)
Lemma loop_iter_stuck arr (size : Z) :
  arr <> [] -> size <= 0 ->
  forall n s, idx s <= 0 ->
    exists s', loop_iter arr size n s = Some s' /\ idx s' <= 0 /\
               length (batches s') = (length (batches s) + n)%nat.
Proof.
  intros Harr Hsize n.
  assert (Hlen : 0 < Z.of_nat (length arr)) by (destruct arr; [ congruence | simpl; lia ]).
  induction n as [ | n IH ]; intros s Hs.
  - exists s. simpl. repeat split; [ assumption | lia ].
  - simpl. unfold loop_step.
    destruct (Z.ltb_spec (idx s) (Z.of_nat (length arr))); [ | lia ].
    edestruct IH as (s' & Hrun & Hidx & Hcount); [ | exists s'; split; [ exact Hrun | ] ].
    + simpl. lia.
    + split; [ assumption | ]. rewrite Hcount. simpl. rewrite length_app. simpl. lia.
Qed.

Lemma loop_run_stuck arr (size : Z) :
  arr <> [] -> size <= 0 ->
  forall fuel s, idx s <= 0 -> loop_run arr size fuel s = None.
Proof.
  intros Harr Hsize fuel.
  assert (Hlen : 0 < Z.of_nat (length arr)) by (destruct arr; [ congruence | simpl; lia ]).
  induction fuel as [ | fuel IH ]; intros s Hs; simpl; unfold loop_step;
    (destruct (Z.ltb_spec (idx s) (Z.of_nat (length arr))); [ | lia ]).
  - reflexivity.
  - apply IH. simpl. lia.
Qed.

End BatchFacts.

(** With a positive size and fuel for one turn per element, [getBatches]
    returns batches that meet the contract. *)
Lemma getBatches_batched (A : Type) (arr : list A) (size : Z) :
  0 < size ->
  exists bs,
    getBatches (length arr) arr size = Some bs /\ batched (Z.to_nat size) arr bs.
Proof.
  intros Hs.
  destruct (loop_run_batched arr size Hs (length arr) 0 [])
    as (bs & Hrun & Hb); [ lia | simpl; lia | ].
  exists bs. split; assumption.
Qed.

(** C3. For a positive size, [getBatches] returns (with fuel for one turn per
    element, and with the same result for any fuel that suffices) consecutive
    batches whose concatenation in order is the input; every batch but the
    last has exactly [size] elements, the last has [N mod size] elements, or
    [size] when that is zero; the empty input gives no batch. *)
Theorem getBatches_partitions (A : Type) (arr : list A) (size : Z) :
  0 < size ->
  exists bs,
    (forall fuel, (length arr <= fuel)%nat -> getBatches fuel arr size = Some bs) /\
    (forall fuel bs', getBatches fuel arr size = Some bs' -> bs' = bs) /\
    concat bs = arr /\
    (forall front b, bs = (front ++ [b])%list ->
       Forall (fun x => Z.of_nat (length x) = size) front /\
       Z.of_nat (length b) =
         (if Z.of_nat (length arr) mod size =? 0 then size
          else Z.of_nat (length arr) mod size)) /\
    (arr = [] -> bs = []).
Proof.
  intros Hs.
  destruct (getBatches_batched A arr size Hs) as (bs & Hrun & Hb).
  unfold getBatches in Hrun.
  assert (Hn : (0 < Z.to_nat size)%nat) by lia.
  exists bs. repeat split.
  - intros fuel Hfuel. unfold getBatches.
    now apply (loop_run_more_fuel arr size (length arr)).
  - intros fuel bs' Hrun'. unfold getBatches in Hrun'.
    pose proof (loop_run_more_fuel arr size _ _ _ Hrun (Nat.max fuel (length arr))) as E.
    pose proof (loop_run_more_fuel arr size _ _ _ Hrun' (Nat.max fuel (length arr))) as E'.
    rewrite E in E' by lia. injection E'; [ auto | lia ].
  - now apply batched_concat with (n := Z.to_nat size).
  - destruct (batched_front_last _ _ _ Hn Hb front b H) as [Hfront _].
    eapply Forall_impl; [ | exact Hfront ]. simpl. intros x Hx. lia.
  - destruct (batched_front_last _ _ _ Hn Hb front b H) as [_ Hlast].
    rewrite Hlast.
    assert (Hmod : Z.of_nat (length arr mod Z.to_nat size) = Z.of_nat (length arr) mod size).
    { rewrite Nat2Z.inj_mod. f_equal. lia. }
    rewrite <- Hmod.
    destruct (Nat.eqb_spec (length arr mod Z.to_nat size) 0) as [E | E].
    + rewrite E. simpl. lia.
    + destruct (Z.eqb_spec (Z.of_nat (length arr mod Z.to_nat size)) 0); [ lia | reflexivity ].
  - intros ->. now apply batched_of_nil in Hb.
Qed.

Lemma getBatches_partitions_witness :
  exists bs,
    (forall fuel, (length [1; 2; 3; 4; 5] <= fuel)%nat ->
       getBatches fuel [1; 2; 3; 4; 5] 2 = Some bs) /\
    (forall fuel bs', getBatches fuel [1; 2; 3; 4; 5] 2 = Some bs' -> bs' = bs) /\
    concat bs = [1; 2; 3; 4; 5] /\
    (forall front b, bs = (front ++ [b])%list ->
       Forall (fun x => Z.of_nat (length x) = 2) front /\
       Z.of_nat (length b) =
         (if Z.of_nat (length [1; 2; 3; 4; 5]) mod 2 =? 0 then 2
          else Z.of_nat (length [1; 2; 3; 4; 5]) mod 2)) /\
    ([1; 2; 3; 4; 5] = [] -> bs = []).
Proof. apply (getBatches_partitions Z [1; 2; 3; 4; 5] 2). lia. Defined.

(** The three batching examples of the test suite. *)
Example getBatches_examples :
  getBatches 5 [1; 2; 3; 4; 5] 2 = Some [[1; 2]; [3; 4]; [5]] /\
  getBatches 0 ([] : list Z) 3 = Some [] /\
  getBatches 1 [1] 1 = Some [[1]].
Proof. repeat split. Qed.

(** C10. [getBatches] ends on every array exactly when the size is positive;
    with a size that is zero or negative and an array that is not empty, the
    loop makes any number of turns with its index never past the end of the
    array, so that no amount of fuel lets it return. *)
Theorem getBatches_terminates_iff_positive (A : Type) (a : A) (size : Z) :
  ((forall arr : list A, exists fuel bs, getBatches fuel arr size = Some bs) <-> 0 < size) /\
  (forall arr : list A, arr <> [] -> size <= 0 ->
     (forall n, exists s,
         loop_iter arr size n {| idx := 0; batches := [] |} = Some s /\
         idx s < Z.of_nat (length arr) /\ length (batches s) = n) /\
     (forall fuel, getBatches fuel arr size = None)).
Proof.
  split; [ split | ].
  - intros Hall. destruct (Z_lt_le_dec 0 size) as [ | Hle ]; [ assumption | ].
    destruct (Hall [a]) as (fuel & bs & Hrun). unfold getBatches in Hrun.
    rewrite loop_run_stuck in Hrun; [ discriminate | discriminate | assumption | simpl; lia ].
  - intros Hs arr.
    destruct (getBatches_batched A arr size Hs) as (bs & Hrun & _).
    now exists (length arr), bs.
  - intros arr Harr Hsize. split.
    + intros n.
      destruct (loop_iter_stuck arr size Harr Hsize n {| idx := 0; batches := [] |})
        as (s & Hrun & Hidx & Hcount); [ simpl; lia | ].
      exists s. repeat split; trivial.
      destruct arr; [ congruence | simpl length; lia ].
    + intros fuel. apply loop_run_stuck; [ assumption | assumption | simpl; lia ].
Qed.

Lemma getBatches_terminates_iff_positive_witness :
  (forall n, exists s,
      loop_iter [7] 0 n {| idx := 0; batches := [] |} = Some s /\
      idx s < Z.of_nat (length [7]) /\ length (batches s) = n) /\
  (forall fuel, getBatches fuel [7] 0 = None).
Proof.
  apply (getBatches_terminates_iff_positive Z 0 0); [ discriminate | lia ].
Defined.

(* ================================================================== *)
(** * Properties of the request helper *)

Section RequestFacts.

Variable env : Env.
Variable net : Network.

Lemma request_unconfigured opts h :
  unset (ALPACA_API_KEY env) || unset (ALPACA_SECRET_KEY env) = true ->
  request env net opts h = (Throws (Error credentials_message), h).
Proof. intros H. unfold request. now rewrite H. Qed.

Lemma configured_test :
  configured env ->
  unset (ALPACA_API_KEY env) || unset (ALPACA_SECRET_KEY env) = false.
Proof. intros [-> ->]. reflexivity. Qed.

(** With credentials, a request makes exactly its call and its outcome is
    what [settle] makes of the answer. *)
Lemma request_configured opts h :
  configured env ->
  request env net opts h
  = (settle (net h (issued_call env opts)), (h ++ [issued_call env opts])%list).
Proof.
  intros H. unfold request. rewrite (configured_test H).
  unfold bind, fetch. fold (issued_call env opts).
  destruct (net h (issued_call env opts)) as [res | e]; simpl; trivial.
  unfold res_json.
  destruct (ok res), (body res); reflexivity.
Qed.

Lemma request_served opts h page :
  configured env ->
  (exists res, net h (issued_call env opts) = Ok res /\ ok res = true
               /\ body res = BodyJson page) ->
  request env net opts h = (Returns page, (h ++ [issued_call env opts])%list).
Proof.
  intros H (res & Hnet & Hok & Hbody).
  rewrite request_configured by assumption.
  unfold settle. now rewrite Hnet, Hbody, Hok.
Qed.

End RequestFacts.

(** C8. With credentials, the request helper makes one call, whose URL is the
    base (the given one, or [ALPACA_ENDPOINT] when none is given), the path
    and, when the query string is not empty, a question mark and the query
    string, put end to end with nothing added or removed in between; the call
    carries exactly the two credential headers. *)
Theorem request_concatenates_url (env : Env) (net : Network) (opts : RequestOptions)
  (h : History) :
  configured env ->
  let base := match base opts with Some b => Some b | None => ALPACA_ENDPOINT env end in
  let qs := JS.URLSearchParams_toString (match params opts with Some p => p | None => [] end) in
  exists out,
    request env net opts h
    = (out,
       (h ++ [{| call_url := interpolate base ++ path opts
                             ++ (if Str.is_empty qs then EmptyString else "?" ++ qs);
                 call_method := match method opts with Some m => m | None => "GET" end;
                 call_headers := [("APCA-API-KEY-ID", ALPACA_API_KEY env);
                                  ("APCA-API-SECRET-KEY", ALPACA_SECRET_KEY env)] |}])%list).
Proof.
  intros H base qs. eexists. rewrite request_configured by assumption. reflexivity.
Qed.

(** The two URLs of the test suite: the slash that ends the base and the one
    that starts the path are both kept. *)
Lemma request_concatenates_url_witness :
  (exists out,
     request Sample.env (Sample.always (Sample.ok_response (JObj [("foo", JStr "bar")])))
       {| base := None; path := "/endpoint"; method := None; params := None |} []
     = (out,
        [{| call_url := "https://api//endpoint";
            call_method := "GET";
            call_headers := [("APCA-API-KEY-ID", Some "key");
                             ("APCA-API-SECRET-KEY", Some "secret")] |}])) /\
  (exists out,
     request Sample.env (Sample.always (Sample.ok_response (JArr [])))
       {| base := Some "https://api/"; path := "/v2/calendar"; method := None;
          params := Some [("start", JStr "2021-01-01"); ("end", JStr "2021-01-02")] |} []
     = (out,
        [{| call_url := "https://api//v2/calendar?start=2021-01-01&end=2021-01-02";
            call_method := "GET";
            call_headers := [("APCA-API-KEY-ID", Some "key");
                             ("APCA-API-SECRET-KEY", Some "secret")] |}])).
Proof.
  split.
  - apply (request_concatenates_url Sample.env _
             {| base := None; path := "/endpoint"; method := None; params := None |} []).
    split; reflexivity.
  - apply (request_concatenates_url Sample.env _
             {| base := Some "https://api/"; path := "/v2/calendar"; method := None;
                params := Some [("start", JStr "2021-01-01"); ("end", JStr "2021-01-02")] |}
             []).
    split; reflexivity.
Defined.

(** C5. When the response to the call has a status that is not a success,
    the request helper raises an error whose message is the status, a space,
    the status text, [" - "] and the JSON text of the decoded body: for a 404
    [Not Found] with body [{"error":"fail"}], the message of the test suite.
    When the body of such a response is not JSON, the helper raises the parse
    error of [res.json()] instead. *)
Theorem request_raises_upstream_error (env : Env) (net : Network) (opts : RequestOptions)
  (h : History) (res : Response) :
  configured env ->
  net h (issued_call env opts) = Ok res ->
  ok res = false ->
  (forall v, body res = BodyJson v ->
     request env net opts h
     = (Throws (Error (Str.of_Z (status res) ++ " " ++ statusText res ++ " - "
                         ++ JS.JSON_stringify v)),
        (h ++ [issued_call env opts])%list)) /\
  (status res = 404 -> statusText res = "Not Found" ->
   body res = BodyJson (JObj [("error", JStr "fail")]) ->
     fst (request env net opts h)
     = Throws (Error ("404 Not Found - {" ++ Str.q "error" ++ ":" ++ Str.q "fail" ++ "}"))) /\
  (forall e, body res = BodyInvalid e ->
     request env net opts h = (Throws e, (h ++ [issued_call env opts])%list)).
Proof.
  intros H Hnet Hok.
  rewrite request_configured by assumption. unfold settle. rewrite Hnet, Hok.
  repeat split.
  - intros v ->. reflexivity.
  - intros Hs Ht ->. simpl. now rewrite Hs, Ht.
  - intros e ->. reflexivity.
Qed.

Lemma request_raises_upstream_error_witness :
  fst (request Sample.env (Sample.always Sample.not_found)
         {| base := None; path := "/e"; method := None; params := None |} [])
  = Throws (Error ("404 Not Found - {" ++ Str.q "error" ++ ":" ++ Str.q "fail" ++ "}")).
Proof.
  apply (request_raises_upstream_error Sample.env (Sample.always Sample.not_found)
           {| base := None; path := "/e"; method := None; params := None |} []
           Sample.not_found); try reflexivity.
  split; reflexivity.
Defined.

(* ================================================================== *)
(** * Properties of the fetchers *)

Lemma get_field (engine : Engine) (page : json) (k : string) :
  page <> JNull -> JS.get engine page k = Ok (field k page).
Proof. destruct page; trivial. congruence. Qed.

Lemma bind_returns {A B} (m : M A) (k : A -> M B) h a h' :
  m h = (Returns a, h') -> bind m k h = k a h'.
Proof. unfold bind. now intros ->. Qed.

Lemma bind_throws {A B} (m : M A) (k : A -> M B) h e h' :
  m h = (Throws e, h') -> bind m k h = (Throws e, h').
Proof. unfold bind. now intros ->. Qed.

(** The first batch of a list of symbols that is not empty exists. *)
Lemma getBatches_symbols (symbols : list string) :
  exists todo,
    getBatches (S (length symbols)) symbols 2000 = Some todo /\
    concat todo = symbols /\
    Forall (fun b => (length b <= 2000)%nat) todo.
Proof.
  destruct (loop_run_batched symbols 2000 eq_refl (S (length symbols)) 0 [])
    as (todo & Hrun & Hb); [ lia | simpl; lia | ].
  exists todo. simpl skipn in Hb. repeat split.
  - exact Hrun.
  - now apply batched_concat with (n := Z.to_nat 2000).
  - assert (Hn : (0 < Z.to_nat 2000)%nat) by lia.
    eapply Forall_impl; [ | exact (batched_bounds _ _ _ Hn Hb) ].
    simpl. intros b [_ Hle]. lia.
Qed.

(** Without credentials, an invocation that reaches the request helper
    resolves to the error envelope of the credentials message and leaves the
    network alone. *)
Lemma unconfigured_run (engine : Engine) (env : Env) (net : Network) fuel inv h :
  unset (ALPACA_API_KEY env) || unset (ALPACA_SECRET_KEY env) = true ->
  reaches_request inv = true ->
  run engine env net (S fuel) inv h
  = (Returns (failure (error_prefix inv ++ credentials_message)), h).
Proof.
  intros Hu Hreach.
  destruct inv as [c | a | s e | a]; simpl run.
  - unfold getAssets, try_catch.
    erewrite bind_throws by (apply request_unconfigured; exact Hu). reflexivity.
  - unfold getStockBars, try_catch.
    destruct (getBatches_symbols (bars_symbols a)) as (todo & -> & Hcat & _).
    destruct todo as [ | batch todo ].
    { simpl in Hcat, Hreach. rewrite <- Hcat in Hreach. discriminate. }
    simpl bars_batches.
    rewrite (bind_throws _ _ h (Error credentials_message) h); [ reflexivity | ].
    apply bind_throws. apply bind_throws. apply request_unconfigured. exact Hu.
  - unfold getMarketDays, try_catch.
    erewrite bind_throws by (apply request_unconfigured; exact Hu). reflexivity.
  - unfold getNews, try_catch.
    rewrite (bind_throws _ _ h (Error credentials_message) h); [ reflexivity | ].
    simpl news_pages. apply bind_throws. apply request_unconfigured. exact Hu.
Qed.





Lemma filter_tradable_truthy (engine : Engine) (data : list json) :
  Forall (fun a => a <> JNull) data ->
  filter_tradable engine (JArr data) = Ok (filter tradable_is_truthy data).
Proof.
  unfold filter_tradable.
  induction 1 as [ | a data Ha _ IH ]; simpl; [ reflexivity | ].
  rewrite (get_field engine a "tradable" Ha), IH. reflexivity.
Qed.




(* ------------------------------------------------------------------ *)
(** ** Scripted runs of the bars fetcher *)

Lemma serves_app (net : Network) (c1 : list FetchCall) :
  forall (p1 : list json) (h : History) (c2 : list FetchCall) (p2 : list json),
    length c1 = length p1 ->
    (serves net h (c1 ++ c2)%list (p1 ++ p2)%list
     <-> serves net h c1 p1 /\ serves net (h ++ c1)%list c2 p2).
Proof.
  induction c1 as [ | c c1 IH ]; intros [ | p p1 ] h c2 p2 Hlen; try discriminate.
  - simpl. rewrite app_nil_r. tauto.
  - simpl in Hlen. injection Hlen as Hlen. simpl.
    rewrite (IH p1 (h ++ [c])%list c2 p2 Hlen), <- app_assoc. simpl. tauto.
Qed.

Lemma batch_calls_length env a batch pages :
  forall tok, length (batch_calls env a batch tok pages) = length pages.
Proof. induction pages as [ | p rest IH ]; intros tok; simpl; [ | rewrite IH ]; reflexivity. Qed.

Lemma bars_params_contract a batch tok :
  JS.truthy_opt tok = true \/ tok = None ->
  bars_params a batch tok = bars_contract_params a batch tok.
Proof.
  unfold bars_params, bars_contract_params.
  intros [H | ->]; [ | reflexivity ].
  destruct tok as [t | ]; [ | discriminate ]. simpl in H. now rewrite H.
Qed.

Lemma bind_lift_ok {A B} (x : A) (k : A -> M B) : bind (lift (Ok x)) k = k x.
Proof. reflexivity. Qed.

Lemma bind_lift_throw {A B} (e : exn) (k : A -> M B) : bind (lift (Throw e)) k = throw e.
Proof. reflexivity. Qed.

Lemma merge_pages_cons p pages acc :
  merge_pages (p :: pages) acc = merge_pages pages (Obj.assign acc (field "bars" p)).
Proof. reflexivity. Qed.

Lemma bars_pages_script engine env net a batch :
  configured env ->
  forall pages fuel tok bars h,
    paginated pages ->
    JS.truthy_opt tok = true \/ tok = None ->
    (length pages <= fuel)%nat ->
    serves net h (batch_calls env a batch tok pages) pages ->
    bars_pages engine env net fuel a batch tok bars h
    = (Returns (merge_pages pages bars), (h ++ batch_calls env a batch tok pages)%list).
Proof.
  intros Hc pages.
  induction pages as [ | p rest IH ]; intros fuel tok bars h Hpag Htok Hfuel Hserv.
  - destruct Hpag.
  - destruct fuel as [ | fuel ]; [ simpl in Hfuel; lia | ].
    destruct Hserv as [Hans Hrest]. destruct Hpag as [Hnn Hlast].
    cbn [bars_pages]. rewrite (bars_params_contract a batch tok Htok).
    erewrite bind_returns by (apply request_served; [ exact Hc | exact Hans ]).
    rewrite !get_field by assumption. rewrite !bind_lift_ok.
    rewrite merge_pages_cons. cbn [batch_calls].
    destruct rest as [ | p' rest ].
    + rewrite Hlast. reflexivity.
    + destruct Hlast as [Htrue Hpag]. rewrite Htrue.
      rewrite IH; trivial.
      * now rewrite <- app_assoc.
      * now left.
      * simpl in *. lia.
Qed.

Lemma bars_calls_length env a :
  forall todo pagess, length todo = length pagess ->
    length (bars_calls env a todo pagess) = length (concat pagess).
Proof.
  induction todo as [ | batch todo IH ]; intros [ | pages pagess ] Hlen; try discriminate.
  - reflexivity.
  - simpl. rewrite !length_app, batch_calls_length, IH; [ reflexivity | ].
    now injection Hlen.
Qed.

Lemma merge_pages_app p1 p2 acc :
  merge_pages (p1 ++ p2) acc = merge_pages p2 (merge_pages p1 acc).
Proof. unfold merge_pages. apply fold_left_app. Qed.

Lemma bars_batches_script engine env net a fuel :
  configured env ->
  forall todo pagess bars h,
    length pagess = length todo ->
    Forall paginated pagess ->
    Forall (fun pages => (length pages <= fuel)%nat) pagess ->
    serves net h (bars_calls env a todo pagess) (concat pagess) ->
    bars_batches engine env net fuel a todo bars h
    = (Returns (merge_pages (concat pagess) bars),
       (h ++ bars_calls env a todo pagess)%list).
Proof.
  intros Hc todo.
  induction todo as [ | batch todo IH ]; intros [ | pages pagess ] bars h Hlen Hpag Hfuel Hserv;
    try discriminate.
  - simpl. now rewrite app_nil_r.
  - simpl in Hserv. apply serves_app in Hserv; [ | apply batch_calls_length ].
    destruct Hserv as [Hfirst Hrest].
    inversion Hpag as [ | ? ? Hp Hps ]; subst.
    inversion Hfuel as [ | ? ? Hf Hfs ]; subst.
    cbn [bars_batches].
    erewrite bind_returns.
    2:{ apply bars_pages_script;
        [ exact Hc | exact Hp | now right | exact Hf | exact Hfirst ]. }
    rewrite (IH pagess); trivial.
    + simpl. now rewrite merge_pages_app, <- app_assoc.
    + simpl in Hlen. lia.
Qed.

(* ------------------------------------------------------------------ *)
(** ** [Object.assign] overwrites *)

Section Overwrite.

Implicit Types (k : string) (v : json) (props : list (string * json)).

Lemma lookup_absent k props : Obj.has_key k props = false -> JS.lookup k props = None.
Proof.
  induction props as [ | [k' v'] rest IH ]; simpl; [ reflexivity | ].
  intros H. apply orb_false_elim in H as [Hk Hrest].
  now rewrite (IH Hrest), Hk.
Qed.

Lemma lookup_update k0 k v props :
  JS.lookup k0 (Obj.update k v props)
  = if (k =? k0)%string
    then (if Obj.has_key k props then Some v else None)
    else JS.lookup k0 props.
Proof.
  induction props as [ | [k' v'] rest IH ]; simpl.
  - now destruct (k =? k0)%string.
  - destruct (String.eqb_spec k' k) as [-> | Hne]; simpl; rewrite IH.
    + destruct (String.eqb_spec k k0) as [-> | Hne0].
      * now destruct (Obj.has_key k0 rest).
      * reflexivity.
    + destruct (String.eqb_spec k k0) as [-> | Hne0]; [ | reflexivity ].
      destruct (Obj.has_key k0 rest); [ reflexivity | ].
      now destruct (String.eqb_spec k' k0).
Qed.

Lemma lookup_append k0 k v props :
  JS.lookup k0 (props ++ [(k, v)])%list
  = if (k =? k0)%string then Some v else JS.lookup k0 props.
Proof.
  induction props as [ | [k' v'] rest IH ]; simpl.
  - reflexivity.
  - rewrite IH. now destruct (k =? k0)%string.
Qed.

Lemma lookup_cons_fresh k0 k v props :
  Obj.has_key k props = false ->
  JS.lookup k0 ((k, v) :: props)
  = if (k =? k0)%string then Some v else JS.lookup k0 props.
Proof.
  intros H. simpl.
  destruct (String.eqb_spec k k0) as [-> | Hne].
  - now rewrite (lookup_absent _ _ H).
  - now destruct (JS.lookup k0 props).
Qed.

Lemma lookup_insert_index k0 n k v props :
  Obj.has_key k props = false ->
  JS.lookup k0 (Obj.insert_index n k v props)
  = if (k =? k0)%string then Some v else JS.lookup k0 props.
Proof.
  induction props as [ | [k' v'] rest IH ]; intros H.
  - reflexivity.
  - cbn [Obj.insert_index].
    destruct (Obj.array_index k') as [n' | ]; [ destruct (n' <? n)%N | ];
      try (now apply lookup_cons_fresh).
    simpl in H. apply orb_false_elim in H as [Hk Hrest].
    simpl. rewrite (IH Hrest).
    destruct (String.eqb_spec k k0) as [-> | Hne]; reflexivity.
Qed.

Lemma lookup_define k0 k v props :
  JS.lookup k0 (Obj.define k v props)
  = if (k =? k0)%string then Some v else JS.lookup k0 props.
Proof.
  unfold Obj.define.
  destruct (Obj.has_key k props) eqn:Hk.
  - now rewrite lookup_update, Hk.
  - destruct (Obj.array_index k).
    + now apply lookup_insert_index.
    + apply lookup_append.
Qed.

Lemma lookup_set k0 k v o :
  k0 <> "__proto__" ->
  JS.lookup k0 (Obj.own (Obj.set k v o))
  = if (k =? k0)%string then Some v else JS.lookup k0 (Obj.own o).
Proof.
  intros H0. unfold Obj.set.
  destruct (String.eqb_spec k "__proto__") as [-> | Hne]; cbn [andb].
  - destruct (Obj.reaches_setter o).
    + destruct (String.eqb_spec "__proto__" k0); [ congruence | ].
      now destruct v.
    + apply lookup_define.
  - apply lookup_define.
Qed.

Lemma lookup_assign_props k0 props :
  k0 <> "__proto__" ->
  forall o,
    JS.lookup k0 (Obj.own (fold_left (fun acc p => Obj.set (fst p) (snd p) acc) props o))
    = match JS.lookup k0 props with
      | Some v => Some v
      | None => JS.lookup k0 (Obj.own o)
      end.
Proof.
  intros H0.
  induction props as [ | [k v] rest IH ]; intros o; simpl; [ reflexivity | ].
  rewrite IH, lookup_set by assumption. simpl.
  destruct (JS.lookup k0 rest); [ reflexivity | ].
  now destruct (k =? k0)%string.
Qed.

End Overwrite.



(* ------------------------------------------------------------------ *)
(** ** Scripted runs of the news fetcher *)

Lemma news_params_contract a tok :
  JS.truthy_opt tok = true \/ tok = None ->
  news_params a tok = news_contract_params a tok.
Proof.
  unfold news_params, news_contract_params.
  intros [H | ->]; [ | reflexivity ].
  rewrite H. destruct tok; [ reflexivity | discriminate ].
Qed.

Lemma spread_news engine page :
  has_news_array page -> JS.spread engine (field "news" page) = Ok (news_items page).
Proof. intros [items H]. unfold news_items. now rewrite H. Qed.

Lemma news_pages_script engine env net a :
  configured env ->
  forall pages fuel tok all h,
    paginated pages ->
    Forall has_news_array pages ->
    JS.truthy_opt tok = true \/ tok = None ->
    (length pages <= fuel)%nat ->
    serves net h (news_calls env a tok pages) pages ->
    news_pages engine env net fuel a tok all h
    = (Returns (all ++ concat (map news_items pages))%list,
       (h ++ news_calls env a tok pages)%list).
Proof.
  intros Hc pages.
  induction pages as [ | p rest IH ]; intros fuel tok all h Hpag Hnews Htok Hfuel Hserv.
  - destruct Hpag.
  - destruct fuel as [ | fuel ]; [ simpl in Hfuel; lia | ].
    destruct Hserv as [Hans Hrest]. destruct Hpag as [Hnn Hlast].
    inversion Hnews as [ | ? ? Hp Hps ]; subst.
    cbn [news_pages]. rewrite (news_params_contract a tok Htok).
    erewrite bind_returns by (apply request_served; [ exact Hc | exact Hans ]).
    rewrite !get_field by assumption. rewrite bind_lift_ok.
    rewrite (spread_news engine p Hp), !bind_lift_ok.
    cbn [news_calls map concat].
    destruct rest as [ | p' rest ].
    + rewrite Hlast. simpl. now rewrite app_nil_r.
    + destruct Hlast as [Htrue Hpag]. rewrite Htrue.
      rewrite IH; trivial.
      * now rewrite <- !app_assoc.
      * now left.
      * simpl in *. lia.
Qed.



(* ------------------------------------------------------------------ *)
(** ** Errors stop the fetchers *)

Section Contained.

Variable env : Env.
Variable net : Network.

Lemma contained_ret {A} (a : A) : contained env net (ret a).
Proof.
  intros h. exists []. simpl. rewrite app_nil_r. split; [ reflexivity | ].
  intros k e Hk. inversion Hk.
Qed.

Lemma contained_throw {A} (e : exn) : contained env net (@throw A e).
Proof.
  intros h. exists []. simpl. rewrite app_nil_r. split; [ reflexivity | ].
  intros k e' Hk. inversion Hk.
Qed.

Lemma contained_out_of_fuel {A} : contained env net (@out_of_fuel A).
Proof.
  intros h. exists []. simpl. rewrite app_nil_r. split; [ reflexivity | ].
  intros k e' Hk. inversion Hk.
Qed.

Lemma contained_lift {A} (r : result A) : contained env net (lift r).
Proof. destruct r; [ apply contained_ret | apply contained_throw ]. Qed.

Lemma contained_request opts : contained env net (request env net opts).
Proof.
  intros h.
  destruct (unset (ALPACA_API_KEY env) || unset (ALPACA_SECRET_KEY env)) eqn:Hu.
  - exists []. rewrite request_unconfigured by assumption. simpl.
    rewrite app_nil_r. split; [ reflexivity | ].
    intros k e' Hk. inversion Hk.
  - assert (Hc : configured env).
    { apply orb_false_elim in Hu. exact Hu. }
    exists [issued_call env opts].
    rewrite request_configured by assumption. simpl.
    split; [ reflexivity | ].
    intros k e Hk (opts' & Hraise).
    destruct k as [ | k ]; [ | simpl in Hk; lia ].
    split; [ reflexivity | ].
    simpl in Hraise. rewrite app_nil_r in Hraise.
    rewrite request_configured in Hraise by assumption.
    assert (Hout : settle (net h (issued_call env opts')) = Throws e) by congruence.
    assert (Hh : (h ++ [issued_call env opts'] = h ++ [issued_call env opts])%list)
      by congruence.
    apply app_inv_head in Hh.
    assert (Hcall : issued_call env opts' = issued_call env opts) by congruence.
    now rewrite <- Hcall.
Qed.

Lemma contained_bind {A B} (m : M A) (f : A -> M B) :
  contained env net m -> (forall a, contained env net (f a)) ->
  contained env net (bind m f).
Proof.
  intros Hm Hf h.
  destruct (Hm h) as (c1 & Hsnd & Hraise).
  unfold bind.
  destruct (m h) as [[a | e0 | ] h1] eqn:Emh; simpl in Hsnd, Hraise; subst h1;
    [ | exists c1; simpl; split; [ reflexivity | ];
        intros k e Hk Hr; destruct (Hraise k e Hk Hr) as [Hl Heq];
        split; [ exact Hl | congruence ] .. ].
  destruct (Hf a (h ++ c1)%list) as (c2 & Hsnd2 & Hraise2).
  exists (c1 ++ c2)%list. split; [ now rewrite Hsnd2, app_assoc | ].
  intros k e Hk (opts & Hreq).
  rewrite !firstn_app in Hreq.
  destruct (Nat.lt_ge_cases k (length c1)) as [Hlt | Hge].
  - exfalso.
    replace (k - length c1)%nat with 0%nat in Hreq by lia.
    replace (S k - length c1)%nat with 0%nat in Hreq by lia.
    simpl in Hreq. rewrite !app_nil_r in Hreq.
    destruct (Hraise k e Hlt) as [_ Habs]; [ now exists opts | discriminate ].
  - rewrite (@firstn_all2 _ k c1), (@firstn_all2 _ (S k) c1) in Hreq by lia.
    replace (S k - length c1)%nat with (S (k - length c1)) in Hreq by lia.
    rewrite !app_assoc in Hreq.
    destruct (Hraise2 (k - length c1)%nat e) as [Hlast Hout].
    + rewrite length_app in Hk. lia.
    + now exists opts.
    + split; [ rewrite length_app; lia | exact Hout ].
Qed.

Lemma contained_bars_pages engine fuel :
  forall a batch tok bars,
    contained env net (bars_pages engine env net fuel a batch tok bars).
Proof.
  induction fuel as [ | fuel IH ]; intros a batch tok bars; cbn [bars_pages].
  - apply contained_out_of_fuel.
  - apply contained_bind; [ apply contained_request | intros resp ].
    apply contained_bind; [ apply contained_lift | intros page ].
    apply contained_bind; [ apply contained_lift | intros tok' ].
    destruct (JS.truthy_opt tok'); [ apply IH | apply contained_ret ].
Qed.

Lemma contained_bars_batches engine fuel a :
  forall todo bars, contained env net (bars_batches engine env net fuel a todo bars).
Proof.
  induction todo as [ | batch todo IH ]; intros bars; cbn [bars_batches].
  - apply contained_ret.
  - apply contained_bind; [ apply contained_bars_pages | intros bars'; apply IH ].
Qed.

Lemma contained_news_pages engine fuel :
  forall a tok all, contained env net (news_pages engine env net fuel a tok all).
Proof.
  induction fuel as [ | fuel IH ]; intros a tok all; cbn [news_pages].
  - apply contained_out_of_fuel.
  - apply contained_bind; [ apply contained_request | intros resp ].
    apply contained_bind; [ apply contained_lift | intros news ].
    apply contained_bind; [ apply contained_lift | intros items ].
    apply contained_bind; [ apply contained_lift | intros tok' ].
    destruct (JS.truthy_opt tok'); [ apply IH | apply contained_ret ].
Qed.

(** A [try] block whose errors come out of contained code, under a [catch]
    that wraps the message: nothing is thrown, and the error of a request
    ends the run in the error envelope. *)
Lemma try_catch_contained (prefix : string) (body : M Envelope) :
  contained env net body ->
  forall h,
    let out := try_catch body (fun err => ret (failure (prefix ++ message err))) h in
    (forall e, fst out <> Throws e) /\
    exists calls,
      snd out = (h ++ calls)%list /\
      forall k e, (k < length calls)%nat -> raised_at env net h calls k e ->
        S k = length calls /\ fst out = Returns (failure (prefix ++ message e)).
Proof.
  intros Hbody h. destruct (Hbody h) as (calls & Hsnd & Hraise).
  unfold try_catch.
  destruct (body h) as [[v | e0 | ] h1]; simpl in *; subst h1.
  - split; [ discriminate | ]. exists calls. split; [ reflexivity | ].
    intros k e Hk Hr. destruct (Hraise k e Hk Hr) as [_ Habs]. discriminate.
  - split; [ discriminate | ]. exists calls. split; [ reflexivity | ].
    intros k e Hk Hr. destruct (Hraise k e Hk Hr) as [Hl Heq].
    split; [ exact Hl | ]. congruence.
  - split; [ discriminate | ]. exists calls. split; [ reflexivity | ].
    intros k e Hk Hr. destruct (Hraise k e Hk Hr) as [_ Habs]. discriminate.
Qed.

End Contained.





(* ================================================================== *)
(** * Further properties of the batch helper *)

Section BatchMore.

Context {A : Type}.
Implicit Types (arr l b : list A) (bs : list (list A)).

Lemma batched_count n l bs :
  (0 < n)%nat -> batched n l bs -> length bs = ((length l + n - 1) / n)%nat.
Proof.
  intros Hn.
  induction 1 as [ | l Hl Hle | b l bs Hb Hl _ IH ].
  - simpl. symmetry. apply Nat.div_small. lia.
  - assert (0 < length l)%nat by (destruct l; [ congruence | simpl; lia ]).
    simpl. apply (Nat.div_unique _ _ _ (length l - 1)%nat); lia.
  - simpl length. rewrite IH, length_app, Hb.
    replace (n + length l + n - 1)%nat with (1 * n + (length l + n - 1))%nat by lia.
    rewrite Nat.div_add_l by lia. reflexivity.
Qed.

Lemma batched_nth n l bs :
  (0 < n)%nat -> batched n l bs ->
  forall k,
    nth_error bs k
    = if (k * n <? length l)%nat then Some (firstn n (skipn (k * n) l)) else None.
Proof.
  intros Hn.
  induction 1 as [ | l Hl Hle | b l bs Hb Hl _ IH ]; intros k.
  - simpl. now destruct k.
  - assert (0 < length l)%nat by (destruct l; [ congruence | simpl; lia ]).
    destruct k as [ | k ].
    + simpl. destruct (Nat.ltb_spec 0 (length l)); [ | lia ].
      now rewrite firstn_all2.
    + destruct (Nat.ltb_spec (S k * n) (length l)); [ nia | ].
      simpl. now destruct k.
  - destruct k as [ | k ].
    + simpl. rewrite length_app.
      destruct (Nat.ltb_spec 0 (length b + length l)); [ | lia ].
      rewrite firstn_app, firstn_all2 by lia.
      replace (n - length b)%nat with 0%nat by lia. simpl. now rewrite app_nil_r.
    + simpl nth_error. rewrite IH, length_app, Hb.
      replace (S k * n)%nat with (n + k * n)%nat by lia.
      rewrite skipn_app, Hb.
      replace (n + k * n - n)%nat with (k * n)%nat by lia.
      rewrite (skipn_all2 b) by lia. simpl app.
      destruct (Nat.ltb_spec (k * n) (length l)), (Nat.ltb_spec (n + k * n) (n + length l));
        try lia; reflexivity.
Qed.

End BatchMore.

(** X1. For a positive size and fuel for one turn per element, [getBatches]
    returns batches whose number is the length of the array divided by the
    size, rounded up. *)
Theorem getBatches_count (A : Type) (arr : list A) (size : Z) (fuel : nat) :
  0 < size ->
  (length arr <= fuel)%nat ->
  exists bs,
    getBatches fuel arr size = Some bs /\
    Z.of_nat (length bs) = (Z.of_nat (length arr) + size - 1) / size.
Proof.
  intros Hs Hfuel.
  destruct (getBatches_batched A arr size Hs) as (bs & Hrun & Hb).
  exists bs. split.
  - unfold getBatches in *. now apply (loop_run_more_fuel arr size (length arr)).
  - rewrite (batched_count (Z.to_nat size) arr bs) by (trivial; lia).
    rewrite Nat2Z.inj_div. f_equal; lia.
Qed.

Lemma getBatches_count_witness :
  exists bs,
    getBatches 5 [1; 2; 3; 4; 5] 2 = Some bs /\
    Z.of_nat (length bs) = (Z.of_nat (length [1; 2; 3; 4; 5]) + 2 - 1) / 2.
Proof.
  apply (getBatches_count Z [1; 2; 3; 4; 5] 2 5); [ lia | simpl; lia ].
Defined.

(** X2. For a positive size and fuel for one turn per element, [getBatches]
    returns batches of which number [k] (from zero) holds the [size]
    elements that follow the first [k * size] of the array, or those that are
    left of them; there is no batch [k] once [k * size] reaches the length. *)
Theorem getBatches_nth (A : Type) (arr : list A) (size : Z) (fuel : nat) :
  0 < size ->
  (length arr <= fuel)%nat ->
  exists bs,
    getBatches fuel arr size = Some bs /\
    forall k,
      nth_error bs k
      = if Z.of_nat k * size <? Z.of_nat (length arr)
        then Some (firstn (Z.to_nat size) (skipn (k * Z.to_nat size) arr))
        else None.
Proof.
  intros Hs Hfuel.
  destruct (getBatches_batched A arr size Hs) as (bs & Hrun & Hb).
  exists bs. split.
  - unfold getBatches in *. now apply (loop_run_more_fuel arr size (length arr)).
  - intros k.
    rewrite (batched_nth (Z.to_nat size) arr bs) by (trivial; lia).
    destruct (Nat.ltb_spec (k * Z.to_nat size) (length arr)),
             (Z.ltb_spec (Z.of_nat k * size) (Z.of_nat (length arr)));
      try reflexivity; nia.
Qed.

Lemma getBatches_nth_witness :
  exists bs,
    getBatches 5 [1; 2; 3; 4; 5] 2 = Some bs /\
    forall k,
      nth_error bs k
      = if Z.of_nat k * 2 <? Z.of_nat (length [1; 2; 3; 4; 5])
        then Some (firstn (Z.to_nat 2) (skipn (k * Z.to_nat 2) [1; 2; 3; 4; 5]))
        else None.
Proof.
  apply (getBatches_nth Z [1; 2; 3; 4; 5] 2 5); [ lia | simpl; lia ].
Defined.

(** X3. For a positive size and fuel for one turn per element, [getBatches]
    returns batches in which the element at index [i] of the array is found
    in batch [i / size], at index [i mod size]. *)
Theorem getBatches_element (A : Type) (arr : list A) (size : Z) (fuel : nat) :
  0 < size ->
  (length arr <= fuel)%nat ->
  exists bs,
    getBatches fuel arr size = Some bs /\
    forall i x,
      nth_error arr i = Some x ->
      exists b,
        nth_error bs (i / Z.to_nat size) = Some b /\
        nth_error b (i mod Z.to_nat size) = Some x.
Proof.
  intros Hs Hfuel.
  destruct (getBatches_batched A arr size Hs) as (bs & Hrun & Hb).
  exists bs. split.
  { unfold getBatches in *. now apply (loop_run_more_fuel arr size (length arr)). }
  intros i x Hx.
  set (n := Z.to_nat size) in *. assert (Hn : (0 < n)%nat) by (unfold n; lia).
  assert (Hi : (i < length arr)%nat) by (apply nth_error_Some; congruence).
  pose proof (Nat.div_mod_eq i n) as Hdiv.
  pose proof (Nat.mod_upper_bound i n ltac:(lia)) as Hmod.
  exists (firstn n (skipn (i / n * n) arr)). split.
  - rewrite (batched_nth n arr bs Hn Hb).
    destruct (Nat.ltb_spec (i / n * n) (length arr)); [ reflexivity | nia ].
  - rewrite nth_error_firstn.
    destruct (Nat.ltb_spec (i mod n) n); [ | lia ].
    rewrite nth_error_skipn. rewrite <- Hx. f_equal. lia.
Qed.

Lemma getBatches_element_witness :
  exists bs,
    getBatches 5 [1; 2; 3; 4; 5] 2 = Some bs /\
    forall i x,
      nth_error [1; 2; 3; 4; 5] i = Some x ->
      exists b,
        nth_error bs (i / Z.to_nat 2) = Some b /\
        nth_error b (i mod Z.to_nat 2) = Some x.
Proof.
  apply (getBatches_element Z [1; 2; 3; 4; 5] 2 5); [ lia | simpl; lia ].
Defined.

(* ================================================================== *)
(** * Further properties of the request helper *)

(** X4. With credentials, when the response to the call is a success whose
    body decodes, the request helper returns the decoded body, having made
    that one call. *)
Theorem request_returns_body (env : Env) (net : Network) (opts : RequestOptions)
  (h : History) (res : Response) (v : json) :
  configured env ->
  net h (issued_call env opts) = Ok res ->
  ok res = true ->
  body res = BodyJson v ->
  request env net opts h = (Returns v, (h ++ [issued_call env opts])%list).
Proof. intros Hc Hnet Hok Hbody. apply request_served; eauto. Qed.

Lemma request_returns_body_witness :
  request Sample.env (Sample.always (Sample.ok_response (JObj [("foo", JStr "bar")])))
    {| base := None; path := "/endpoint"; method := None; params := None |} []
  = (Returns (JObj [("foo", JStr "bar")]),
     [{| call_url := "https://api//endpoint";
         call_method := "GET";
         call_headers := [("APCA-API-KEY-ID", Some "key");
                          ("APCA-API-SECRET-KEY", Some "secret")] |}]).
Proof.
  apply (request_returns_body Sample.env _
           {| base := None; path := "/endpoint"; method := None; params := None |} []
           (Sample.ok_response (JObj [("foo", JStr "bar")])));
    try reflexivity.
  split; reflexivity.
Defined.

(** X5. With credentials, the request helper does not wrap what the
    transport raises: when [fetch] rejects, and when a successful response
    has a body that does not decode, the error thrown is the very error of
    [fetch] or of [res.json()]. *)
Theorem request_propagates_unwrapped (env : Env) (net : Network) (opts : RequestOptions)
  (h : History) (e : exn) :
  configured env ->
  net h (issued_call env opts) = Throw e \/
  (exists res, net h (issued_call env opts) = Ok res /\ body res = BodyInvalid e) ->
  request env net opts h = (Throws e, (h ++ [issued_call env opts])%list).
Proof.
  intros Hc H. rewrite request_configured by assumption. unfold settle.
  destruct H as [-> | (res & -> & ->)]; reflexivity.
Qed.

Lemma request_propagates_unwrapped_witness :
  request Sample.env (Sample.in_turn [])
    {| base := None; path := "/endpoint"; method := None; params := None |} []
  = (Throws (FetchError "network unreachable"),
     [{| call_url := "https://api//endpoint";
         call_method := "GET";
         call_headers := [("APCA-API-KEY-ID", Some "key");
                          ("APCA-API-SECRET-KEY", Some "secret")] |}]).
Proof.
  apply (request_propagates_unwrapped Sample.env (Sample.in_turn [])
           {| base := None; path := "/endpoint"; method := None; params := None |} []).
  - split; reflexivity.
  - left. reflexivity.
Defined.

(* ================================================================== *)
(** * What the fetchers send *)

Section CallsOnly.

Variable env : Env.
Variable net : Network.
Variable P : FetchCall -> Prop.

Lemma calls_only_ret {A} (a : A) : calls_only P (ret a).
Proof. intros h. exists []. simpl. now rewrite app_nil_r. Qed.

Lemma calls_only_throw {A} (e : exn) : calls_only P (@throw A e).
Proof. intros h. exists []. simpl. now rewrite app_nil_r. Qed.

Lemma calls_only_out_of_fuel {A} : calls_only P (@out_of_fuel A).
Proof. intros h. exists []. simpl. now rewrite app_nil_r. Qed.

Lemma calls_only_lift {A} (r : result A) : calls_only P (lift r).
Proof. destruct r; [ apply calls_only_ret | apply calls_only_throw ]. Qed.

Lemma calls_only_bind {A B} (m : M A) (f : A -> M B) :
  calls_only P m -> (forall a, calls_only P (f a)) -> calls_only P (bind m f).
Proof.
  intros Hm Hf h. destruct (Hm h) as (c1 & Hsnd & HP). unfold bind.
  destruct (m h) as [[a | e | ] h1]; simpl in Hsnd; subst h1;
    [ | exists c1; split; [ reflexivity | exact HP ] .. ].
  destruct (Hf a (h ++ c1)%list) as (c2 & Hsnd2 & HP2).
  exists (c1 ++ c2)%list. split.
  - now rewrite Hsnd2, app_assoc.
  - apply Forall_app. now split.
Qed.

Lemma calls_only_try_catch {A} (m : M A) (handler : exn -> M A) :
  calls_only P m -> (forall e, calls_only P (handler e)) ->
  calls_only P (try_catch m handler).
Proof.
  intros Hm Hh h. destruct (Hm h) as (c1 & Hsnd & HP). unfold try_catch.
  destruct (m h) as [[a | e | ] h1]; simpl in Hsnd; subst h1;
    try (exists c1; split; [ reflexivity | exact HP ]).
  destruct (Hh e (h ++ c1)%list) as (c2 & Hsnd2 & HP2).
  exists (c1 ++ c2)%list. split.
  - now rewrite Hsnd2, app_assoc.
  - apply Forall_app. now split.
Qed.

(** A request makes no call without credentials, and one call with them. *)
Lemma calls_only_request opts :
  (configured env -> P (issued_call env opts)) ->
  calls_only P (request env net opts).
Proof.
  intros HP h.
  destruct (unset (ALPACA_API_KEY env) || unset (ALPACA_SECRET_KEY env)) eqn:Hu.
  - exists []. rewrite request_unconfigured by assumption. simpl.
    now rewrite app_nil_r.
  - assert (Hc : configured env) by (apply orb_false_elim in Hu; exact Hu).
    exists [issued_call env opts]. rewrite request_configured by assumption.
    split; [ reflexivity | ]. constructor; [ now apply HP | constructor ].
Qed.

End CallsOnly.

Lemma fetcher_call_data (env : Env) (p : string) (ps : list (string * json)) :
  configured env ->
  fetcher_call env (issued_call env {| base := ALPACA_ENDPOINT env; path := p;
                                       method := None; params := Some ps |}).
Proof.
  intros Hc. unfold fetcher_call, issued_call. simpl.
  repeat split; try apply Hc.
  eexists. left. destruct (ALPACA_ENDPOINT env); reflexivity.
Qed.

Lemma fetcher_call_broker (env : Env) (p : string) (ps : list (string * json)) :
  configured env ->
  fetcher_call env (issued_call env {| base := ALPACA_BROKER_ENDPOINT env; path := p;
                                       method := None; params := Some ps |}).
Proof.
  intros Hc. unfold fetcher_call, issued_call. simpl.
  repeat split; try apply Hc.
  eexists. destruct (ALPACA_BROKER_ENDPOINT env); [ right | left ]; reflexivity.
Qed.

Lemma calls_only_bars_pages engine env net fuel :
  forall a batch tok bars,
    calls_only (fetcher_call env) (bars_pages engine env net fuel a batch tok bars).
Proof.
  induction fuel as [ | fuel IH ]; intros a batch tok bars; cbn [bars_pages].
  - apply calls_only_out_of_fuel.
  - apply calls_only_bind;
      [ apply calls_only_request, fetcher_call_data | intros resp ].
    apply calls_only_bind; [ apply calls_only_lift | intros page ].
    apply calls_only_bind; [ apply calls_only_lift | intros tok' ].
    destruct (JS.truthy_opt tok'); [ apply IH | apply calls_only_ret ].
Qed.

Lemma calls_only_bars_batches engine env net fuel a :
  forall todo bars,
    calls_only (fetcher_call env) (bars_batches engine env net fuel a todo bars).
Proof.
  induction todo as [ | batch todo IH ]; intros bars; cbn [bars_batches].
  - apply calls_only_ret.
  - apply calls_only_bind; [ apply calls_only_bars_pages | intros bars'; apply IH ].
Qed.

Lemma calls_only_news_pages engine env net fuel :
  forall a tok all,
    calls_only (fetcher_call env) (news_pages engine env net fuel a tok all).
Proof.
  induction fuel as [ | fuel IH ]; intros a tok all; cbn [news_pages].
  - apply calls_only_out_of_fuel.
  - apply calls_only_bind;
      [ apply calls_only_request, fetcher_call_data | intros resp ].
    apply calls_only_bind; [ apply calls_only_lift | intros news ].
    apply calls_only_bind; [ apply calls_only_lift | intros items ].
    apply calls_only_bind; [ apply calls_only_lift | intros tok' ].
    destruct (JS.truthy_opt tok'); [ apply IH | apply calls_only_ret ].
Qed.

(** X6. Whatever the network answers, an invocation of a fetcher only adds
    calls to the history, and every call it adds is made with both
    credentials configured and sent in the two headers, with the method
    [GET], to a URL that starts with the data base or the broker base: no
    call leaves without credentials, and none writes. *)
Theorem fetchers_only_read (engine : Engine) (env : Env) (net : Network) (fuel : nat)
  (inv : Invocation) (h : History) :
  exists calls,
    snd (run engine env net fuel inv h) = (h ++ calls)%list /\
    Forall (fetcher_call env) calls.
Proof.
  revert h. change (calls_only (fetcher_call env) (run engine env net fuel inv)).
  destruct inv as [c | a | s e | a]; simpl run;
    [ unfold getAssets | unfold getStockBars | unfold getMarketDays | unfold getNews ];
    (apply calls_only_try_catch; [ | intros err; apply calls_only_ret ]).
  - apply calls_only_bind;
      [ apply calls_only_request, fetcher_call_broker | intros data ].
    apply calls_only_bind; [ apply calls_only_lift | intros assets; apply calls_only_ret ].
  - destruct (getBatches _ _ _); [ | apply calls_only_out_of_fuel ].
    apply calls_only_bind;
      [ apply calls_only_bars_batches | intros bars; apply calls_only_ret ].
  - apply calls_only_bind;
      [ apply calls_only_request, fetcher_call_data | intros days; apply calls_only_ret ].
  - apply calls_only_bind;
      [ apply calls_only_news_pages | intros all; apply calls_only_ret ].
Qed.

(* ================================================================== *)
(** * Further properties of the fetchers *)



(** X8. When [ALPACA_BROKER_ENDPOINT] is not set, the assets fetcher sends
    its call to the data base [ALPACA_ENDPOINT] instead (the default of the
    request helper takes over), and to the text [undefined] when that is not
    set either. *)
Theorem getAssets_falls_back_to_data_base (engine : Engine) (env : Env) (net : Network)
  (assetClass : option AssetClass) (h : History) :
  configured env ->
  ALPACA_BROKER_ENDPOINT env = None ->
  exists out,
    getAssets engine env net assetClass h
    = (out,
       (h ++ [{| call_url :=
                   match ALPACA_ENDPOINT env with Some b => b | None => "undefined" end
                   ++ "/v1/assets?status=active&asset_class="
                   ++ AssetClass_text
                        (match assetClass with Some c => c | None => us_equity end);
                 call_method := "GET";
                 call_headers := [("APCA-API-KEY-ID", ALPACA_API_KEY env);
                                  ("APCA-API-SECRET-KEY", ALPACA_SECRET_KEY env)] |}])%list).
Proof.
  intros Hc Hb. unfold getAssets, try_catch, bind.
  rewrite request_configured by assumption.
  match goal with
  | |- context [ issued_call env ?o ] => set (opts := o)
  end.
  match goal with
  | |- exists out, _ = (out, (h ++ [?c])%list) => assert (Hcall : issued_call env opts = c)
  end.
  { unfold issued_call, opts. simpl. rewrite Hb.
    destruct (ALPACA_ENDPOINT env), assetClass as [ [ | ] | ]; reflexivity. }
  rewrite Hcall.
  destruct (settle _) as [data | e | ]; simpl; [ | eexists; reflexivity .. ].
  destruct (filter_tradable engine data); simpl; eexists; reflexivity.
Qed.

Lemma getAssets_falls_back_to_data_base_witness :
  exists out,
    getAssets Sample.engine
      {| ALPACA_API_KEY := Some "key"; ALPACA_SECRET_KEY := Some "secret";
         ALPACA_ENDPOINT := Some "https://api/"; ALPACA_BROKER_ENDPOINT := None |}
      (Sample.always (Sample.ok_response Sample.assets)) None []
    = (out,
       [{| call_url := "https://api//v1/assets?status=active&asset_class=us_equity";
           call_method := "GET";
           call_headers := [("APCA-API-KEY-ID", Some "key");
                            ("APCA-API-SECRET-KEY", Some "secret")] |}]).
Proof.
  apply (getAssets_falls_back_to_data_base Sample.engine
           {| ALPACA_API_KEY := Some "key"; ALPACA_SECRET_KEY := Some "secret";
              ALPACA_ENDPOINT := Some "https://api/"; ALPACA_BROKER_ENDPOINT := None |}
           (Sample.always (Sample.ok_response Sample.assets)) None []).
  - split; reflexivity.
  - reflexivity.
Defined.

Lemma filter_tradable_null_element (engine : Engine) (items : list json) :
  In JNull items ->
  filter_tradable engine (JArr items)
  = Throw (TypeError (null_property_message engine "tradable")).
Proof.
  unfold filter_tradable.
  induction items as [ | a items IH ]; intros Hin; [ contradiction | ].
  simpl. destruct (JS.get engine a "tradable") as [t | e] eqn:Hget.
  - destruct Hin as [-> | Hin]; [ discriminate | ]. now rewrite IH.
  - destruct a; simpl in Hget; try discriminate. now injection Hget as <-.
Qed.



Lemma bind_returns_inv {A B} (m : M A) (k : A -> M B) h v h' :
  bind m k h = (Returns v, h') ->
  exists a h1, m h = (Returns a, h1) /\ k a h1 = (Returns v, h').
Proof.
  unfold bind. destruct (m h) as [[a | e | ] h1]; intros H; try discriminate.
  now exists a, h1.
Qed.

(** The first batch of a list of symbols that is not empty holds its first
    2000 symbols. *)
Lemma getBatches_first_batch (symbols : list string) :
  symbols <> [] ->
  exists rest,
    getBatches (S (length symbols)) symbols 2000
    = Some (firstn 2000 symbols :: rest).
Proof.
  intros Hne.
  destruct (loop_run_batched symbols 2000 eq_refl (S (length symbols)) 0 [])
    as (todo & Hrun & Hb); [ lia | simpl; lia | ].
  change ([] ++ todo)%list with todo in Hrun.
  change (skipn (Z.to_nat 0) symbols) with symbols in Hb.
  unfold getBatches. rewrite Hrun.
  assert (Hn : (0 < Z.to_nat 2000)%nat) by lia.
  pose proof (batched_nth (Z.to_nat 2000) symbols todo Hn Hb 0) as H0.
  simpl Nat.mul in H0.
  destruct (Nat.ltb_spec 0 (length symbols)) as [ _ | Hlen ].
  - destruct todo as [ | b rest ]; [ discriminate | ].
    simpl in H0. injection H0 as ->. exists rest. reflexivity.
  - destruct symbols; [ congruence | simpl in Hlen; lia ].
Qed.





(* ------------------------------------------------------------------ *)
(** ** Pagination without end *)

Section NoPageLimit.

Variable engine : Engine.
Variable env : Env.
Variable net : Network.
Hypothesis Hc : configured env.
Hypothesis Hmore : always_more net.

Lemma request_always_more opts h :
  exists page,
    request env net opts h = (Returns page, (h ++ [issued_call env opts])%list) /\
    page <> JNull /\ JS.truthy_opt (field "next_page_token" page) = true /\
    has_news_array page.
Proof.
  destruct (Hmore h (issued_call env opts))
    as (res & page & Hnet & Hok & Hbody & Hnn & Htok & Hnews).
  exists page. repeat split; trivial. apply request_served; eauto.
Qed.

Lemma news_pages_never_end a :
  forall fuel tok all h,
    exists calls,
      news_pages engine env net fuel a tok all h = (OutOfFuel, (h ++ calls)%list) /\
      length calls = fuel.
Proof.
  induction fuel as [ | fuel IH ]; intros tok all h.
  - exists []. simpl. now rewrite app_nil_r.
  - cbn [news_pages].
    match goal with
    | |- context [ request env net ?o ] =>
        destruct (request_always_more o h) as (page & Hreq & Hnn & Htok & Hnews);
        set (opts := o) in *
    end.
    erewrite bind_returns by exact Hreq.
    rewrite !get_field by assumption. rewrite bind_lift_ok.
    rewrite (spread_news engine page Hnews), !bind_lift_ok, Htok.
    destruct (IH (field "next_page_token" page) (all ++ news_items page)%list
                (h ++ [issued_call env opts])%list) as (calls & -> & Hlen).
    exists (issued_call env opts :: calls). split.
    + now rewrite <- app_assoc.
    + simpl. now rewrite Hlen.
Qed.

Lemma bars_pages_never_end a batch :
  forall fuel tok bars h,
    exists calls,
      bars_pages engine env net fuel a batch tok bars h = (OutOfFuel, (h ++ calls)%list) /\
      length calls = fuel.
Proof.
  induction fuel as [ | fuel IH ]; intros tok bars h.
  - exists []. simpl. now rewrite app_nil_r.
  - cbn [bars_pages].
    match goal with
    | |- context [ request env net ?o ] =>
        destruct (request_always_more o h) as (page & Hreq & Hnn & Htok & Hnews);
        set (opts := o) in *
    end.
    erewrite bind_returns by exact Hreq.
    rewrite !get_field by assumption. rewrite !bind_lift_ok, Htok.
    destruct (IH (field "next_page_token" page) (Obj.assign bars (field "bars" page))
                (h ++ [issued_call env opts])%list) as (calls & -> & Hlen).
    exists (issued_call env opts :: calls). split.
    + now rewrite <- app_assoc.
    + simpl. now rewrite Hlen.
Qed.

End NoPageLimit.





(* ================================================================== *)
(** * Further properties of the accumulator *)

Section Accumulator.

Implicit Types (k : string) (v : json) (props : list (string * json)) (o : Obj.t).

Lemma has_key_in k props : Obj.has_key k props = true <-> In k (keys props).
Proof.
  unfold Obj.has_key, keys. rewrite existsb_exists, in_map_iff. split.
  - intros (p & Hin & Heq). apply String.eqb_eq in Heq. now exists p.
  - intros (p & Heq & Hin). exists p. split; [ assumption | now apply String.eqb_eq ].
Qed.

Lemma has_key_not_in k props : Obj.has_key k props = false <-> ~ In k (keys props).
Proof.
  rewrite <- has_key_in. destruct (Obj.has_key k props); split; congruence.
Qed.

Lemma keys_update k v props : keys (Obj.update k v props) = keys props.
Proof.
  induction props as [ | [k' v'] rest IH ]; simpl; [ reflexivity | ].
  destruct (k' =? k)%string; simpl; now rewrite <- IH.
Qed.

Lemma insert_index_split n k v props :
  exists front back,
    props = (front ++ back)%list /\
    Obj.insert_index n k v props = (front ++ (k, v) :: back)%list.
Proof.
  induction props as [ | [k' v'] rest IH ].
  - exists [], []. split; reflexivity.
  - cbn [Obj.insert_index].
    destruct (Obj.array_index k') as [n' | ]; [ destruct (n' <? n)%N | ].
    + destruct IH as (front & back & -> & ->).
      exists ((k', v') :: front), back. split; reflexivity.
    + exists [], ((k', v') :: rest). split; reflexivity.
    + exists [], ((k', v') :: rest). split; reflexivity.
Qed.

(** Creating or overwriting a property keeps the keys distinct. *)
Lemma define_nodup k v props : NoDup (keys props) -> NoDup (keys (Obj.define k v props)).
Proof.
  intros Hnd. unfold Obj.define.
  destruct (Obj.has_key k props) eqn:Hk.
  - now rewrite keys_update.
  - apply has_key_not_in in Hk.
    destruct (Obj.array_index k) as [n | ].
    + destruct (insert_index_split n k v props) as (front & back & -> & ->).
      unfold keys in *. rewrite map_app in *. simpl.
      apply NoDup_Add with (a := k) (l := (map fst front ++ map fst back)%list);
        [ apply Add_app | split; assumption ].
    + unfold keys in *. rewrite map_app. simpl.
      apply NoDup_Add with (a := k) (l := (map fst props ++ [])%list);
        [ apply Add_app | rewrite app_nil_r; split; assumption ].
Qed.

Lemma set_nodup k v o : NoDup (keys (Obj.own o)) -> NoDup (keys (Obj.own (Obj.set k v o))).
Proof.
  intros Hnd. unfold Obj.set.
  destruct ((k =? "__proto__")%string && Obj.reaches_setter o).
  - destruct v; assumption.
  - now apply define_nodup.
Qed.

Lemma assign_nodup o src :
  NoDup (keys (Obj.own o)) -> NoDup (keys (Obj.own (Obj.assign o src))).
Proof.
  unfold Obj.assign. generalize (Obj.enumerable src). intros props. revert o.
  induction props as [ | [k v] rest IH ]; intros o Hnd; simpl; [ assumption | ].
  apply IH. now apply set_nodup.
Qed.

(** Merging a mapping whose keys are new, distinct, and neither array
    indices nor [__proto__], appends it to the own properties as it is. *)
Lemma assign_fresh props :
  forall o,
    NoDup (keys props) ->
    Forall (fun k => k <> "__proto__" /\ Obj.array_index k = None /\
                     ~ In k (keys (Obj.own o))) (keys props) ->
    Obj.own (fold_left (fun acc p => Obj.set (fst p) (snd p) acc) props o)
    = (Obj.own o ++ props)%list.
Proof.
  induction props as [ | [k v] rest IH ]; intros o Hnd Hall; simpl.
  - now rewrite app_nil_r.
  - inversion Hnd as [ | ? ? Hk Hrest ]; subst.
    inversion Hall as [ | ? ? (Hp & Hi & Hfresh) Hall' ]; subst.
    assert (Hset : Obj.own (Obj.set k v o) = (Obj.own o ++ [(k, v)])%list).
    { unfold Obj.set. destruct (String.eqb_spec k "__proto__"); [ congruence | ].
      simpl. unfold Obj.define.
      apply has_key_not_in in Hfresh. now rewrite Hfresh, Hi. }
    rewrite IH; trivial.
    + now rewrite Hset, <- app_assoc.
    + rewrite Forall_forall in *. intros k' Hin.
      destruct (Hall' k' Hin) as (Hp' & Hi' & Hf').
      repeat split; trivial.
      rewrite Hset. unfold keys. rewrite map_app, in_app_iff. simpl.
      intros [H | [<- | []]]; [ now apply Hf' | now apply Hk ].
Qed.

End Accumulator.

(** X14. Every key other than [__proto__] has, in the accumulator, the
    value that the last page carrying it gave it, or the value it had before
    the pages when none carries it. *)
Theorem merge_pages_last_page_wins (pages : list json) (acc : Obj.t) (k : string) :
  k <> "__proto__" ->
  JS.lookup k (Obj.own (merge_pages pages acc))
  = fold_left (fun cur page =>
                 match JS.lookup k (Obj.enumerable (field "bars" page)) with
                 | Some v => Some v
                 | None => cur
                 end)
      pages (JS.lookup k (Obj.own acc)).
Proof.
  intros Hk. revert acc.
  induction pages as [ | p rest IH ]; intros acc; [ reflexivity | ].
  rewrite merge_pages_cons. simpl fold_left. rewrite IH. f_equal.
  unfold Obj.assign. now apply lookup_assign_props.
Qed.

Lemma merge_pages_last_page_wins_witness :
  JS.lookup "A" (Obj.own (merge_pages [Sample.bars_page1; Sample.bars_page2] Obj.empty))
  = fold_left (fun cur page =>
                 match JS.lookup "A" (Obj.enumerable (field "bars" page)) with
                 | Some v => Some v
                 | None => cur
                 end)
      [Sample.bars_page1; Sample.bars_page2] (JS.lookup "A" (Obj.own Obj.empty)).
Proof.
  apply (merge_pages_last_page_wins [Sample.bars_page1; Sample.bars_page2] Obj.empty "A").
  discriminate.
Defined.

(** X15. However many pages are merged and whatever they hold, no key
    occurs twice in the accumulator, hence in the [bars] object of the
    payload. *)
Theorem merge_pages_keys_distinct (pages : list json) :
  NoDup (keys (Obj.own (merge_pages pages Obj.empty))).
Proof.
  unfold merge_pages.
  assert (H : forall acc, NoDup (keys (Obj.own acc)) ->
                NoDup (keys (Obj.own (fold_left
                                        (fun acc p => Obj.assign acc (field "bars" p))
                                        pages acc)))).
  { induction pages as [ | p rest IH ]; intros acc Hnd; simpl; [ assumption | ].
    apply IH. now apply assign_nodup. }
  apply H. constructor.
Qed.

(** X16. Merging into the empty accumulator a mapping whose keys are
    distinct and are neither array indices nor [__proto__] gives back the
    mapping, in its order: the payload of a single page of such bars is that
    page's mapping. *)
Theorem assign_to_empty_restores (mapping : list (string * json)) :
  NoDup (keys mapping) ->
  Forall (fun k => k <> "__proto__" /\ Obj.array_index k = None) (keys mapping) ->
  Obj.own (Obj.assign Obj.empty (Some (JObj mapping))) = mapping.
Proof.
  intros Hnd Hall. unfold Obj.assign. simpl Obj.enumerable.
  rewrite assign_fresh; trivial.
  eapply Forall_impl; [ | exact Hall ].
  simpl. intros k [Hp Hi]. repeat split; trivial. intros [].
Qed.

Lemma assign_to_empty_restores_witness :
  Obj.own (Obj.assign Obj.empty
             (Some (JObj [("A", JObj [("value", JNum "1")]);
                          ("B", JObj [("value", JNum "2")])])))
  = [("A", JObj [("value", JNum "1")]); ("B", JObj [("value", JNum "2")])].
Proof.
  apply (assign_to_empty_restores
           [("A", JObj [("value", JNum "1")]); ("B", JObj [("value", JNum "2")])]).
  - repeat constructor; simpl; intuition discriminate.
  - repeat constructor; discriminate.
Defined.

(* ================================================================== *)
(** * Properties of the query string *)

(** A byte that does not start a surrogate is encoded on its own. *)
Lemma form_encode_step (c : ascii) (rest : string) :
  N_of_ascii c <> 237%N ->
  JS.form_encode (String c rest) = JS.form_encode_char c ++ JS.form_encode rest.
Proof.
  intros Hc. cbn [JS.form_encode].
  destruct rest as [ | c2 [ | c3 rest' ] ]; trivial.
  unfold Str.is_surrogate. apply N.eqb_neq in Hc. now rewrite Hc.
Qed.

Lemma plain_char (c : ascii) :
  Str.is_alnum c || (N_of_ascii c =? 42)%N || (N_of_ascii c =? 45)%N
  || (N_of_ascii c =? 46)%N || (N_of_ascii c =? 95)%N = true ->
  N_of_ascii c <> 237%N /\ JS.form_encode_char c = String c EmptyString.
Proof.
  intros H. split.
  - intros E. unfold Str.is_alnum, Str.is_digit in H. rewrite E in H. discriminate.
  - unfold JS.form_encode_char. now rewrite H.
Qed.

Lemma form_encode_plain_app (s t : string) :
  plain s = true -> JS.form_encode (s ++ t) = s ++ JS.form_encode t.
Proof.
  induction s as [ | c s IH ]; intros H; [ reflexivity | ].
  simpl in H. apply andb_prop in H as [Hc Hs].
  destruct (plain_char c Hc) as [Hne Henc].
  change (String c s ++ t) with (String c (s ++ t)).
  rewrite form_encode_step, Henc, (IH Hs) by assumption. reflexivity.
Qed.

Lemma form_encode_plain (s : string) : plain s = true -> JS.form_encode s = s.
Proof.
  induction s as [ | c s IH ]; intros H; [ reflexivity | ].
  simpl in H. apply andb_prop in H as [Hc Hs].
  destruct (plain_char c Hc) as [Hne Henc].
  rewrite form_encode_step, Henc, (IH Hs) by assumption. reflexivity.
Qed.

Lemma count_char_app (c : ascii) (s t : string) :
  count_char c (s ++ t) = (count_char c s + count_char c t)%nat.
Proof. induction s as [ | c' s IH ]; simpl; [ reflexivity | rewrite IH; lia ]. Qed.

(** The encoding of a character holds neither [&] nor [=]. *)
Lemma form_encode_char_no_separator (c : ascii) :
  count_char "&" (JS.form_encode_char c) = 0%nat /\
  count_char "=" (JS.form_encode_char c) = 0%nat.
Proof.
  destruct c as [[ | ] [ | ] [ | ] [ | ] [ | ] [ | ] [ | ] [ | ]];
    split; vm_compute; reflexivity.
Qed.

Lemma form_encode_no_separator (s : string) :
  count_char "&" (JS.form_encode s) = 0%nat /\
  count_char "=" (JS.form_encode s) = 0%nat.
Proof.
  assert (H : forall n s, (String.length s <= n)%nat ->
                count_char "&" (JS.form_encode s) = 0%nat /\
                count_char "=" (JS.form_encode s) = 0%nat).
  { induction n as [ | n IH ]; intros [ | c rest ] Hlen;
      try (split; reflexivity); simpl in Hlen; [ lia | ].
    assert (Hstep : count_char "&" (JS.form_encode_char c ++ JS.form_encode rest) = 0%nat /\
                    count_char "=" (JS.form_encode_char c ++ JS.form_encode rest) = 0%nat).
    { rewrite !count_char_app.
      destruct (form_encode_char_no_separator c) as [-> ->].
      destruct (IH rest) as [-> ->]; [ lia | split; reflexivity ]. }
    cbn [JS.form_encode].
    destruct rest as [ | c2 [ | c3 rest' ] ]; trivial.
    destruct (Str.is_surrogate c c2); trivial.
    rewrite !count_char_app.
    destruct (IH rest') as [-> ->]; [ simpl in Hlen; lia | split; reflexivity ]. }
  apply (H (String.length s)). lia.
Qed.

Lemma form_encode_join (symbols : list string) :
  Forall (fun s => plain s = true) symbols ->
  JS.form_encode (Str.join "," symbols) = Str.join "%2C" symbols.
Proof.
  induction 1 as [ | s rest Hs Hrest IH ]; [ reflexivity | ].
  destruct rest as [ | s' rest ].
  - simpl. now apply form_encode_plain.
  - change (Str.join "," (s :: s' :: rest))
      with (s ++ String "," (Str.join "," (s' :: rest))).
    change (Str.join "%2C" (s :: s' :: rest))
      with (s ++ "%2C" ++ Str.join "%2C" (s' :: rest)).
    rewrite (form_encode_plain_app s _ Hs), form_encode_step, IH by discriminate.
    reflexivity.
Qed.

(** X17. Symbols made of letters, digits and [*], [-], [.], [_] reach the
    query string joined by [%2C]: the commas that join them are encoded,
    they are not. *)
Theorem symbols_joined_by_encoded_commas (symbols : list string) :
  Forall (fun s => plain s = true) symbols ->
  JS.URLSearchParams_toString [("symbols", JStr (Str.join "," symbols))]
  = "symbols=" ++ Str.join "%2C" symbols.
Proof.
  intros Hall. unfold JS.URLSearchParams_toString.
  cbn [map fst snd JS.to_string Str.join String.concat].
  fold (Str.join "," symbols). rewrite (form_encode_join symbols Hall).
  reflexivity.
Qed.

Lemma symbols_joined_by_encoded_commas_witness :
  JS.URLSearchParams_toString [("symbols", JStr (Str.join "," ["AAPL"; "BRK.B"; "MSFT"]))]
  = "symbols=" ++ Str.join "%2C" ["AAPL"; "BRK.B"; "MSFT"].
Proof.
  apply (symbols_joined_by_encoded_commas ["AAPL"; "BRK.B"; "MSFT"]).
  repeat constructor.
Defined.

Lemma count_char_concat (c : ascii) (sep : string) (parts : list string) :
  count_char c (String.concat sep parts)
  = (list_sum (map (count_char c) parts) + pred (length parts) * count_char c sep)%nat.
Proof.
  induction parts as [ | x rest IH ]; [ reflexivity | ].
  destruct rest as [ | y rest ].
  - simpl. lia.
  - change (String.concat sep (x :: y :: rest))
      with (x ++ sep ++ String.concat sep (y :: rest)).
    rewrite !count_char_app, IH. simpl. lia.
Qed.

Lemma list_sum_const {A : Type} (f : A -> nat) (n : nat) (l : list A) :
  (forall x, f x = n) -> list_sum (map f l) = (n * length l)%nat.
Proof.
  intros Hf. induction l as [ | x l IH ]; simpl; [ lia | ]. rewrite Hf, IH. lia.
Qed.

(** X18. Whatever the names and the values of the parameters, the query
    string holds one [=] per parameter and one [&] between two parameters:
    no name or value can add or split a parameter. *)
Theorem query_string_separators (params : list (string * json)) :
  count_char "=" (JS.URLSearchParams_toString params) = length params /\
  count_char "&" (JS.URLSearchParams_toString params) = pred (length params).
Proof.
  unfold JS.URLSearchParams_toString, Str.join.
  rewrite !count_char_concat, !length_map, !map_map.
  rewrite (list_sum_const _ 1%nat), (list_sum_const _ 0%nat);
    [ simpl; split; lia | .. ].
  all: intros [k v]; cbn [fst snd]; rewrite !count_char_app;
    destruct (form_encode_no_separator k) as [E1 E2];
    destruct (form_encode_no_separator (JS.to_string v)) as [E3 E4];
    rewrite ?E1, ?E2, ?E3, ?E4; reflexivity.
Qed.

(* ================================================================== *)
(** * The built-ins on their edge inputs *)

(** A decoded number that overflowed is written [null], in a payload as in
    the message of an upstream error. *)
Example JSON_stringify_not_finite :
  JS.JSON_stringify (JArr [JObj [("n", JNum "Infinity")]; JNum "-Infinity"; JNum "1e+21"])
  = "[{" ++ Str.q "n" ++ ":null},null,1e+21]" /\
  fst (request Sample.env
         (Sample.always (Sample.error_response 400 "Bad Request"
                           (JObj [("limit", JNum "Infinity")])))
         {| base := None; path := "/e"; method := None; params := None |} [])
  = Throws (Error ("400 Bad Request - {" ++ Str.q "limit" ++ ":null}")).
Proof. split; reflexivity. Qed.

(** [Object.assign] copies a string source by code unit: a character
    outside the Basic Multilingual Plane gives two keys, each holding one
    surrogate, which [JSON.stringify] writes as an escape. *)
Example assign_string_by_code_unit :
  map (fun p => (fst p, JS.JSON_stringify (snd p)))
    (Obj.own (Obj.assign Obj.empty (Some (JStr ("a" ++ grinning_face)))))
  = [("0", Str.q "a"); ("1", Str.q "\ud83d"); ("2", Str.q "\ude00")].
Proof. reflexivity. Qed.

(** The spread iterates a string by character, and a surrogate that stands
    alone reaches a query string as U+FFFD. *)
Example spread_and_encode_surrogates :
  JS.spread Sample.engine (Some (JStr ("a" ++ grinning_face)))
  = Ok [JStr "a"; JStr grinning_face] /\
  JS.form_encode (Str.surrogate 55357 ++ "a b") = "%EF%BF%BDa+b".
Proof. split; reflexivity. Qed.
